(** * The read-through cache coordinator of [server/services/cacheService.ts]

    A shallow embedding of [CacheService] (and of the [RedisClient] wrapper it
    consults) as an event-driven state machine.  JavaScript runs every piece of
    code between two [await]s to completion, so each such piece is one
    transition; the scheduler and the environment (the backend's replies, the
    outcome of an origin fetch, the clock, the connection) are the events.

    Conventions. An origin fetcher is an asynchronous operation: calling it
    yields a pending promise, which settles in a later transition. A backend
    command takes effect at the transition that resumes the code awaiting it.
    An [await] on a promise that is already settled resumes before any event
    of the environment is served, so it does not end the transition.
    Counters are natural numbers (a JavaScript number counts exactly up to
    2^53); a string's length is its number of characters. *)

From Stdlib Require Import NArith ZArith String Ascii Floats Uint63.
From stdpp Require Import gmap strings list fin_maps pretty.

Local Open Scope string_scope.

(** ** Serialization

    [JSON.stringify] and [JSON.parse] belong to the JavaScript runtime.  The
    cached values are JSON data: a value that serializes is read back by the
    parser, and its text is never the empty string. [None] stands for a thrown
    exception ([JSON.parse] on malformed text; [JSON.stringify] on a cyclic
    value, or its result [undefined], whose [.length] raises). *)
Class JSON (V : Type) := {
  JSON_stringify : V → option string;
  JSON_parse : string → option V;
  JSON_null : V;
  JSON_stringify_null : JSON_stringify JSON_null = Some "null";
  JSON_parse_stringify v text : JSON_stringify v = Some text → JSON_parse text = Some v;
  JSON_stringify_truthy v text : JSON_stringify v = Some text → text ≠ "";
}.

(** ** The key-value backend (Redis), external to the repository *)

(** Glob patterns of [KEYS]: [*], [?], [[...]] with ranges and [^], and [\]
    to take the next character literally. *)
Inductive glob_token :=
  | GStar
  | GAny
  | GLit (c : ascii)
  | GClass (negated : bool) (ranges : list (ascii * ascii)).

Definition is_char (c d : ascii) : bool := bool_decide (c = d).

Fixpoint tokenize (cls : option (bool * list (ascii * ascii))) (p : string) : list glob_token :=
  match cls, p with
  | None, EmptyString => []
  | None, String c p' =>
      if is_char c "*" then GStar :: tokenize None p'
      else if is_char c "?" then GAny :: tokenize None p'
      else if is_char c "\" then
        match p' with
        | String d p'' => GLit d :: tokenize None p''
        | EmptyString => [GLit c]
        end
      else if is_char c "[" then
        match p' with
        | String d p'' =>
            if is_char d "^" then tokenize (Some (true, [])) p''
            else tokenize (Some (false, [])) p'
        | EmptyString => [GClass false []]
        end
      else GLit c :: tokenize None p'
  | Some (neg, rs), EmptyString => [GClass neg rs]
  | Some (neg, rs), String c p' =>
      if is_char c "]" then GClass neg rs :: tokenize None p'
      else if is_char c "\" then
        match p' with
        | String d p'' => tokenize (Some (neg, (rs ++ [(d, d)])%list)) p''
        | EmptyString => [GClass neg rs]
        end
      else
        match p' with
        | String d (String e p''') =>
            if is_char d "-" then tokenize (Some (neg, (rs ++ [(c, e)])%list)) p'''
            else tokenize (Some (neg, (rs ++ [(c, c)])%list)) p'
        | _ => tokenize (Some (neg, (rs ++ [(c, c)])%list)) p'
        end
  end.

Definition in_range (c : ascii) (r : ascii * ascii) : bool :=
  let lo := N.min (N_of_ascii r.1) (N_of_ascii r.2) in
  let hi := N.max (N_of_ascii r.1) (N_of_ascii r.2) in
  (lo <=? N_of_ascii c)%N && (N_of_ascii c <=? hi)%N.

Definition token_accepts (t : glob_token) (c : ascii) : bool :=
  match t with
  | GStar | GAny => true
  | GLit d => is_char c d
  | GClass neg rs => xorb neg (existsb (in_range c) rs)
  end.

Fixpoint tokens_match (ts : list glob_token) : string → bool :=
  match ts with
  | [] => λ s, bool_decide (s = "")
  | GStar :: ts' =>
      fix star (s : string) : bool :=
        tokens_match ts' s ||
        match s with
        | EmptyString => false
        | String _ s' => star s'
        end
  | t :: ts' => λ s,
      match s with
      | EmptyString => false
      | String c s' => token_accepts t c && tokens_match ts' s'
      end
  end.

Definition glob_match (pattern key : string) : bool :=
  tokens_match (tokenize None pattern) key.

(** The keyspace: a key holds its text and the instant at which it expires.
    Expiry is passive: an expired key is simply no longer visible. *)
Definition redis_get (now : N) (db : gmap string (string * N)) (key : string) : option string :=
  match db !! key with
  | Some (text, expires) => if (now <? expires)%N then Some text else None
  | None => None
  end.

Definition redis_setex (now : N) (key : string) (ttl : N) (text : string)
    (db : gmap string (string * N)) : gmap string (string * N) :=
  <[key := (text, (now + ttl)%N)]> db.

Definition redis_keys (now : N) (db : gmap string (string * N)) (pattern : string) : list string :=
  filter (λ k, is_Some (redis_get now db k) ∧ glob_match pattern k = true) (elements (dom db)).

Definition redis_del (keys : list string) (db : gmap string (string * N)) : gmap string (string * N) :=
  foldr delete db keys.

(** ** [RedisClient] (the connection wrapper) *)
Record RedisClient := {
  client : bool;        (* [this.client !== null] *)
  isConnected : bool;
}.

(** [getClient()] hands out the handle only while connected; the result is
    kept as its truthiness. *)
Definition getClient (r : RedisClient) : bool :=
  if isConnected r then client r else false.

Definition isAvailable (r : RedisClient) : bool :=
  isConnected r && client r.

(** The guard [!client || !redisClient.isAvailable()] of every operation. *)
Definition unavailable (r : RedisClient) : bool :=
  negb (getClient r) || negb (isAvailable r).

(** ** Numbers shown by [getStats] *)

Definition MAX_OBJECT_SIZE : N := 1024 * 1024.

(** A counter as a double (exact below 2^53). *)
Definition number_of_N (n : N) : float :=
  PrimFloat.of_uint63 (Uint63.of_Z (Z.of_N n)).

(** [x.toFixed(2)] for a finite [x ≥ 0]: the integer [n] with [n / 100]
    nearest to the exact value of [x], the larger on a tie, written with two
    decimals. *)
Definition hundredths (x : float) : N :=
  match Prim2SF x with
  | S754_finite false m e =>
      match e with
      | Z0 => Npos m * 100
      | Zpos k => Npos m * 2 ^ Npos k * 100
      | Zneg k => (2 * (Npos m * 100) + 2 ^ Npos k) / (2 * 2 ^ Npos k)
      end
  | _ => 0
  end%N.

Definition two_digits (n : N) : string :=
  (if (n <? 10)%N then "0" else "") ++ pretty n.

Definition toFixed2 (x : float) : string :=
  let n := hundredths x in
  pretty (n / 100)%N ++ "." ++ two_digits (n mod 100)%N.


(** ** The coordinator *)

(** What can be thrown, or be the reason of a rejection. *)
Inductive exn :=
  | SyntaxError                    (* [JSON.parse] *)
  | TypeError                      (* [JSON.stringify(value)], [stringValue.length] *)
  | ReplyError                     (* a rejected backend command *)
  | OriginError (reason : string). (* whatever an origin fetcher fails with *)

(** What a promise settles to. *)
Inductive settled (V : Type) :=
  | Fulfilled (value : V)
  | Rejected (error : exn).
Arguments Fulfilled {V} value.
Arguments Rejected {V} error.

(** Whether an awaited backend command resolved or was rejected. *)
Inductive reply := OK | ERR.

(** An origin fetcher is an opaque asynchronous operation of the caller: it is
    known by its name, an invocation starts a job, and the environment later
    settles the job's promise. *)
Definition fetcher := string.

Section coordinator.
Context {V : Type} `{!JSON V}.

(** A call of [get], from the caller's side. *)
Inductive call_state :=
  | AwaitingRead (key : string) (fetchFunction : fetcher) (ttl : N)
      (* suspended at [await client.get(key)] *)
  | Returned (value : V)
      (* resolved with [JSON.parse(cachedValue)] *)
  | Follows (j : nat).
      (* returned a promise: settles as job [j] does *)

(** One job per invocation of a [fetchFunction]. *)
Inductive job_state :=
  | Fetching (registered : option (string * N))
      (* the fetcher's promise is pending. [Some (key, ttl)]: inside the
         [requestPromise] created by [get] for [key]; [None]: a bare
         [return fetchFunction()] *)
  | Storing (key : string) (ttl : N) (data : V) (stringValue : string)
      (* [requestPromise] suspended at [await this.set(key, data, ttl)], and
         [set] at [await client.setex(key, ttl, stringValue)] *)
  | Settled (outcome : settled V).

Record job := Job {
  invoked : fetcher;
  status : job_state;
}.

Record CacheService := {
  redisClient : RedisClient;
  now : N;                               (* the backend's clock, in seconds *)
  db : gmap string (string * N);         (* the backend's keyspace *)
  pendingRequests : gmap string nat;     (* key ↦ the job behind the shared promise *)
  stats_hits : N;
  stats_misses : N;
  calls : list call_state;
  jobs : list job;
}.

Definition with_redisClient (r : RedisClient) (s : CacheService) : CacheService :=
  {| redisClient := r; now := now s; db := db s; pendingRequests := pendingRequests s;
     stats_hits := stats_hits s; stats_misses := stats_misses s;
     calls := calls s; jobs := jobs s |}.
Definition with_now (t : N) (s : CacheService) : CacheService :=
  {| redisClient := redisClient s; now := t; db := db s; pendingRequests := pendingRequests s;
     stats_hits := stats_hits s; stats_misses := stats_misses s;
     calls := calls s; jobs := jobs s |}.
Definition with_db (d : gmap string (string * N)) (s : CacheService) : CacheService :=
  {| redisClient := redisClient s; now := now s; db := d; pendingRequests := pendingRequests s;
     stats_hits := stats_hits s; stats_misses := stats_misses s;
     calls := calls s; jobs := jobs s |}.
Definition with_pendingRequests (p : gmap string nat) (s : CacheService) : CacheService :=
  {| redisClient := redisClient s; now := now s; db := db s; pendingRequests := p;
     stats_hits := stats_hits s; stats_misses := stats_misses s;
     calls := calls s; jobs := jobs s |}.
Definition with_stats (h m : N) (s : CacheService) : CacheService :=
  {| redisClient := redisClient s; now := now s; db := db s; pendingRequests := pendingRequests s;
     stats_hits := h; stats_misses := m;
     calls := calls s; jobs := jobs s |}.
Definition with_calls (c : list call_state) (s : CacheService) : CacheService :=
  {| redisClient := redisClient s; now := now s; db := db s; pendingRequests := pendingRequests s;
     stats_hits := stats_hits s; stats_misses := stats_misses s;
     calls := c; jobs := jobs s |}.
Definition with_jobs (j : list job) (s : CacheService) : CacheService :=
  {| redisClient := redisClient s; now := now s; db := db s; pendingRequests := pendingRequests s;
     stats_hits := stats_hits s; stats_misses := stats_misses s;
     calls := calls s; jobs := j |}.

(** What the backend would answer for [key] right now. *)
Definition cached (s : CacheService) (key : string) : option string :=
  redis_get (now s) (db s) key.

(** *** Synchronous code: state and exceptions *)

Definition cmd (A : Type) : Type := CacheService → (exn + A) * CacheService.

Definition ret {A} (a : A) : cmd A := λ s, (inr a, s).
Definition throw {A} (e : exn) : cmd A := λ s, (inl e, s).
Definition bind {A B} (m : cmd A) (k : A → cmd B) : cmd B :=
  λ s, match m s with
       | (inr a, s') => k a s'
       | (inl e, s') => (inl e, s')
       end.
(** [try { body } catch (error) { handler }]: what [body] did to the state
    before it threw stays done. *)
Definition try_catch {A} (body : cmd A) (handler : exn → cmd A) : cmd A :=
  λ s, match body s with
       | (inl e, s') => handler e s'
       | r => r
       end.
Definition read {A} (f : CacheService → A) : cmd A := λ s, (inr (f s), s).
Definition update (f : CacheService → CacheService) : cmd unit := λ s, (inr tt, f s).
Definition or_throw {A} (e : exn) (o : option A) : cmd A :=
  match o with Some a => ret a | None => throw e end.

(** [try { body } finally { cleanup }] *)
Definition try_finally {A} (body : cmd A) (cleanup : cmd unit) : cmd A :=
  λ s, match body s with
       | (r, s') => (r, (cleanup s').2)
       end.

Notation "'let*' x := m 'in' k" := (bind m (λ x, k))
  (at level 10, x name, m at level 100, k at level 200).
Notation "m ;;; k" := (bind m (λ _, k))
  (at level 100, k at level 200, right associativity).

(** The backend commands, each with the reply the environment gives it. *)
Definition client_get (key : string) (r : reply) : cmd (option string) :=
  match r with
  | OK => read (λ s, cached s key)
  | ERR => throw ReplyError
  end.
Definition client_setex (key : string) (ttl : N) (text : string) (r : reply) : cmd unit :=
  match r with
  | OK => update (λ s, with_db (redis_setex (now s) key ttl text (db s)) s)
  | ERR => throw ReplyError
  end.
Definition client_del (keys : list string) (r : reply) : cmd unit :=
  match r with
  | OK => update (λ s, with_db (redis_del keys (db s)) s)
  | ERR => throw ReplyError
  end.
Definition client_keys (pattern : string) (r : reply) : cmd (list string) :=
  match r with
  | OK => read (λ s, redis_keys (now s) (db s) pattern)
  | ERR => throw ReplyError
  end.
Definition client_flushall (r : reply) : cmd unit :=
  match r with
  | OK => update (with_db ∅)
  | ERR => throw ReplyError
  end.

(** [if (cachedValue)]: [null] and the empty string are falsy. *)
Definition truthy (cachedValue : option string) : option string :=
  match cachedValue with
  | Some text => if bool_decide (text = "") then None else Some text
  | None => None
  end.

(** [fetchFunction()]: starts a job and yields its index. *)
Definition invoke (fetchFunction : fetcher) (registered : option (string * N)) : cmd nat :=
  λ s, (inr (length (jobs s)),
        with_jobs (jobs s ++ [Job fetchFunction (Fetching registered)])%list s).

Definition settle_call (c : nat) (st : call_state) : cmd unit :=
  update (λ s, with_calls (<[c := st]> (calls s)) s).
Definition settle_job (j : nat) (st : job_state) : cmd unit :=
  update (λ s, with_jobs (alter (λ jb, Job (invoked jb) st) j (jobs s)) s).

(** *** [set], [delete], [deletePattern], [invalidate], [flushAll]

    Each issues at most one awaited command after its last test (two for
    [deletePattern]). Called on its own, the operation is taken at the
    instant the backend serves it. *)

(** [set] from the call to [await client.setex] (lines 69-81): the text it
    sends to the backend, or [None] when it returns without a command. *)
Definition set_begin (value : V) : cmd (option string) :=
  let* rc := read redisClient in
  if unavailable rc then ret None else
  try_catch
    (let* stringValue := or_throw TypeError (JSON_stringify value) in
     if (MAX_OBJECT_SIZE <? N.of_nat (String.length stringValue))%N then ret None
     else ret (Some stringValue))
    (λ _, ret None).

(** [set] from the reply of [client.setex] on (lines 81-84): nothing is
    tested again. *)
Definition set_resume (key : string) (ttl : N) (stringValue : string) (r : reply) : cmd unit :=
  try_catch (client_setex key ttl stringValue r) (λ _, ret tt).

Definition cache_set (key : string) (value : V) (ttl : N) (r : reply) : cmd unit :=
  let* issued := set_begin value in
  match issued with
  | Some stringValue => set_resume key ttl stringValue r
  | None => ret tt
  end.

Definition cache_delete (key : string) (r : reply) : cmd unit :=
  let* rc := read redisClient in
  if unavailable rc then ret tt else
  try_catch (client_del [key] r) (λ _, ret tt).

Definition deletePattern (pattern : string) (r_keys r_del : reply) : cmd unit :=
  let* rc := read redisClient in
  if unavailable rc then ret tt else
  try_catch
    (let* keys := client_keys pattern r_keys in
     if (0 <? length keys)%nat then client_del keys r_del else ret tt)
    (λ _, ret tt).

Definition invalidate (key : string) (r : reply) : cmd unit :=
  cache_delete key r.

Definition flushAll (r : reply) : cmd unit :=
  let* rc := read redisClient in
  if unavailable rc then ret tt else
  try_catch (client_flushall r) (λ _, ret tt).

(** *** [get] *)

(** From the call to the first [await] (lines 16-25). *)
Definition get_begin (key : string) (fetchFunction : fetcher) (ttl : N) : cmd unit :=
  let* rc := read redisClient in
  if unavailable rc then
    let* j := invoke fetchFunction None in
    update (λ s, with_calls (calls s ++ [Follows j])%list s)
  else
    update (λ s, with_calls (calls s ++ [AwaitingRead key fetchFunction ttl])%list s).

(** From the answer of [client.get(key)] to the [return] (lines 25-62). A
    returned promise is not awaited, so its rejection is not caught here. *)
Definition get_resume (c : nat) (key : string) (fetchFunction : fetcher) (ttl : N)
    (r : reply) : cmd unit :=
  try_catch
    (let* cachedValue := client_get key r in
     match truthy cachedValue with
     | Some text =>
         update (λ s, with_stats (stats_hits s + 1) (stats_misses s) s) ;;;
         let* value := or_throw SyntaxError (JSON_parse text) in
         settle_call c (Returned value)
     | None =>
         update (λ s, with_stats (stats_hits s) (stats_misses s + 1) s) ;;;
         let* pending := read (λ s, pendingRequests s !! key) in
         match pending with
         | Some j => settle_call c (Follows j)
         | None =>
             let* j := invoke fetchFunction (Some (key, ttl)) in
             update (λ s, with_pendingRequests (<[key := j]> (pendingRequests s)) s) ;;;
             settle_call c (Follows j)
         end
     end)
    (λ _error,
       let* j := invoke fetchFunction None in
       settle_call c (Follows j)).

(** The promise of job [j] settles as [body] ends. *)
Definition settles (j : nat) (body : cmd V) : cmd unit :=
  λ s, match body s with
       | (inr data, s') => settle_job j (Settled (Fulfilled data)) s'
       | (inl error, s') => settle_job j (Settled (Rejected error)) s'
       end.

(** [requestPromise] (lines 42-53), from the settling of [fetchFunction()]:
    a failure leaves through [finally]; a value goes on to
    [this.set(key, data, ttl)], which runs up to its [await client.setex].
    When [set] returns without a command, its promise is already settled and
    [requestPromise] runs on to its end. *)
Definition request_fetched (j : nat) (key : string) (ttl : N) (o : settled V) : cmd unit :=
  match o with
  | Fulfilled data =>
      let* issued := set_begin data in
      match issued with
      | Some stringValue => settle_job j (Storing key ttl data stringValue)
      | None =>
          settles j
            (try_finally (ret data)
               (update (λ s, with_pendingRequests (delete key (pendingRequests s)) s)))
      end
  | Rejected error =>
      settles j
        (try_finally (throw error)
           (update (λ s, with_pendingRequests (delete key (pendingRequests s)) s)))
  end.

(** [requestPromise], from the reply of the [client.setex] that [set] awaits. *)
Definition request_stored (j : nat) (key : string) (ttl : N) (data : V)
    (stringValue : string) (r : reply) : cmd unit :=
  settles j
    (try_finally (set_resume key ttl stringValue r ;;; ret data)
       (update (λ s, with_pendingRequests (delete key (pendingRequests s)) s))).

(** *** [getStats] *)
Record Stats := {
  hits : N;
  misses : N;
  hitRate : string;
  pendingRequests_size : nat;
}.

Definition getStats : cmd Stats :=
  let* h := read stats_hits in
  let* m := read stats_misses in
  let total := (h + m)%N in
  let rate := if (0 <? total)%N
              then ((number_of_N h / number_of_N total) * 100)%float
              else 0%float in
  let* n := read (λ s, size (pendingRequests s)) in
  ret {| hits := h; misses := m; hitRate := toFixed2 rate ++ "%";
         pendingRequests_size := n |}.

(** *** The machine *)
Inductive event :=
  | Get (key : string) (fetchFunction : fetcher) (ttl : N)
  | ReadReplied (c : nat) (r : reply)
  | FetchSettled (j : nat) (o : settled V)
  | SetFinished (j : nat) (r : reply)
  | SetCalled (key : string) (value : V) (ttl : N) (r : reply)
  | DeleteCalled (key : string) (r : reply)
  | DeletePatternCalled (pattern : string) (r_keys r_del : reply)
  | InvalidateCalled (key : string) (r : reply)
  | FlushAllCalled (r : reply)
  | GetStatsCalled
  | Tick (seconds : N)
  | Connected          (* the client's 'connect' handler *)
  | Disconnected       (* its 'error' and 'close' handlers *)
  | GaveUp.            (* the retry strategy sets [this.client = null] *)

Definition exec {A} (m : cmd A) (s : CacheService) : CacheService := (m s).2.

Definition step (s : CacheService) (e : event) : CacheService :=
  match e with
  | Get key f ttl => exec (get_begin key f ttl) s
  | ReadReplied c r =>
      match calls s !! c with
      | Some (AwaitingRead key f ttl) => exec (get_resume c key f ttl r) s
      | _ => s
      end
  | FetchSettled j o =>
      match jobs s !! j with
      | Some (Job _ (Fetching (Some (key, ttl)))) => exec (request_fetched j key ttl o) s
      | Some (Job _ (Fetching None)) => exec (settle_job j (Settled o)) s
      | _ => s
      end
  | SetFinished j r =>
      match jobs s !! j with
      | Some (Job _ (Storing key ttl data stringValue)) =>
          exec (request_stored j key ttl data stringValue r) s
      | _ => s
      end
  | SetCalled key value ttl r => exec (cache_set key value ttl r) s
  | DeleteCalled key r => exec (cache_delete key r) s
  | DeletePatternCalled pattern r1 r2 => exec (deletePattern pattern r1 r2) s
  | InvalidateCalled key r => exec (invalidate key r) s
  | FlushAllCalled r => exec (flushAll r) s
  | GetStatsCalled => exec getStats s
  | Tick d => with_now (now s + d) s
  | Connected => with_redisClient {| client := client (redisClient s); isConnected := true |} s
  | Disconnected => with_redisClient {| client := client (redisClient s); isConnected := false |} s
  | GaveUp => with_redisClient {| client := false; isConnected := isConnected (redisClient s) |} s
  end.

Definition run (s : CacheService) (es : list event) : CacheService :=
  foldl step s es.

(** A fresh process; [connected] tells whether Redis was configured and the
    connection is up. *)
Definition start (connected : bool) : CacheService :=
  {| redisClient := {| client := connected; isConnected := connected |};
     now := 0; db := ∅; pendingRequests := ∅;
     stats_hits := 0; stats_misses := 0; calls := []; jobs := [] |}.

(** What the caller of call [c] has received so far. *)
Definition received (s : CacheService) (c : nat) : option (settled V) :=
  match calls s !! c with
  | Some (Returned value) => Some (Fulfilled value)
  | Some (Follows j) =>
      match jobs s !! j with
      | Some (Job _ (Settled o)) => Some o
      | _ => None
      end
  | _ => None
  end.

(** How many times [f] has been invoked. *)
Definition invocations (f : fetcher) (s : CacheService) : nat :=
  length (filter (λ jb, invoked jb = f) (jobs s)).

(** *** Observations used by the properties *)

(** The text [set] sends to the backend for [value], if it sends any. *)
Definition set_issues (s : CacheService) (value : V) : option string :=
  if unavailable (redisClient s) then None else
  match JSON_stringify value with
  | Some text => if (MAX_OBJECT_SIZE <? N.of_nat (String.length text))%N then None else Some text
  | None => None
  end.

(** What [set] does to the backend. *)
Definition set_effect (s : CacheService) (key : string) (value : V) (ttl : N) (r : reply) : gmap string (string * N) :=
  if unavailable (redisClient s) then db s else
  match JSON_stringify value, r with
  | Some text, OK =>
      if (MAX_OBJECT_SIZE <? N.of_nat (String.length text))%N then db s
      else redis_setex (now s) key ttl text (db s)
  | _, _ => db s
  end.

(** What the reply to an issued [setex] does to the backend. *)
Definition setex_effect (s : CacheService) (key : string) (ttl : N) (text : string) (r : reply) : gmap string (string * N) :=
  match r with
  | OK => redis_setex (now s) key ttl text (db s)
  | ERR => db s
  end.

(** What the cache lookup answered by [e] finds: [Some true] a stored value
    (a cache hit), [Some false] nothing (a cache miss); [None] when [e] does
    not answer a lookup. *)
Definition lookup_of (s : CacheService) (e : event) : option bool :=
  match e with
  | ReadReplied c OK =>
      match calls s !! c with
      | Some (AwaitingRead key _ _) => Some (bool_decide (is_Some (truthy (cached s key))))
      | _ => None
      end
  | _ => None
  end.

(** The number of lookups that found ([found = true]) or missed along a run. *)
Fixpoint count_lookups (found : bool) (s : CacheService) (es : list event) : N :=
  match es with
  | [] => 0
  | e :: es' =>
      (if bool_decide (lookup_of s e = Some found) then 1 else 0)
      + count_lookups found (step s e) es'
  end%N.

(** The key under which the promise of an unsettled job sits in the registry,
    if it is a [requestPromise]. *)
Definition registered_key (jb : job) : option string :=
  match status jb with
  | Fetching (Some (key, _)) => Some key
  | Storing key _ _ _ => Some key
  | _ => None
  end.

(** Job [j] is the pending shared computation for [key]. *)
Definition in_flight (js : list job) (key : string) (j : nat) : Prop :=
  ∃ jb, js !! j = Some jb ∧ registered_key jb = Some key.

(** The events of a burst of concurrent calls [get(key, f, ttl)]: a caller
    makes the call, or the lookup of one of the calls made since call number
    [c0] is answered. No fetch settles meanwhile. *)
Definition arrival (key : string) (f : fetcher) (ttl : N) (c0 : nat) (e : event) : Prop :=
  e = Get key f ttl ∨ ∃ c : nat, (c0 ≤ c)%nat ∧ e = ReadReplied c OK.

(** The call is past its lookup. *)
Definition answered (st : call_state) : bool :=
  match st with
  | AwaitingRead _ _ _ => false
  | _ => true
  end.

(** Every stored text was written by [JSON.stringify]. *)
Definition decodable (d : gmap string (string * N)) : Prop :=
  ∀ key text expires, d !! key = Some (text, expires) →
    ∃ value : V, JSON_stringify value = Some text.

(** Every text on its way to the backend was written by [JSON.stringify]. *)
Definition serialized (js : list job) : Prop :=
  ∀ j f key ttl data text,
    js !! j = Some (Job f (Storing key ttl data text)) → JSON_stringify data = Some text.

(** The registry holds exactly the pending shared computations. *)
Definition consistent (reg : gmap string nat) (js : list job) : Prop :=
  ∀ key j, reg !! key = Some j ↔ in_flight js key j.

End coordinator.

Arguments call_state V : clear implicits.
Arguments job_state V : clear implicits.
Arguments job V : clear implicits.
Arguments CacheService V : clear implicits.
Arguments event V : clear implicits.
Arguments cmd V A : clear implicits.

(** ** A concrete codec

    JSON restricted to [null], the booleans and strings, enough to run the
    machine on examples. *)
Inductive json :=
  | JNull
  | JBool (b : bool)
  | JString (s : string).

Definition dquote : ascii := Eval cbv in ascii_of_N 34.
Definition backslash : ascii := Eval cbv in ascii_of_N 92.

(** The body of a string literal, up to and with the closing quote. *)
Fixpoint quote_body (s : string) : string :=
  match s with
  | EmptyString => String dquote EmptyString
  | String c s' =>
      if is_char c dquote || is_char c backslash
      then String backslash (String c (quote_body s'))
      else String c (quote_body s')
  end.

Fixpoint unquote_body (escaped : bool) (t : string) : option string :=
  match t with
  | EmptyString => None
  | String c t' =>
      if escaped then String c <$> unquote_body false t'
      else if is_char c backslash then unquote_body true t'
      else if is_char c dquote then
        match t' with EmptyString => Some EmptyString | _ => None end
      else String c <$> unquote_body false t'
  end.

Definition json_stringify (v : json) : option string :=
  match v with
  | JNull => Some "null"
  | JBool true => Some "true"
  | JBool false => Some "false"
  | JString s => Some (String dquote (quote_body s))
  end.

Definition json_parse (t : string) : option json :=
  if bool_decide (t = "null") then Some JNull
  else if bool_decide (t = "true") then Some (JBool true)
  else if bool_decide (t = "false") then Some (JBool false)
  else match t with
       | String c t' => if is_char c dquote then JString <$> unquote_body false t' else None
       | EmptyString => None
       end.

(** ['x'.repeat(n)] *)
Definition repeat_x (n : N) : string := N.iter n (String "x") EmptyString.

Lemma unquote_quote_body s : unquote_body false (quote_body s) = Some s.
Proof.
  induction s as [|c s IH]; [reflexivity|].
  cbn [quote_body].
  destruct (is_char c dquote || is_char c backslash) eqn:E.
  - cbn [unquote_body]. unfold is_char at 1. rewrite bool_decide_eq_true_2 by reflexivity.
    rewrite IH. reflexivity.
  - apply orb_false_elim in E as [E1 E2].
    cbn [unquote_body]. rewrite E1, E2, IH. reflexivity.
Qed.

Lemma json_parse_stringify v t : json_stringify v = Some t → json_parse t = Some v.
Proof.
  destruct v as [|[]|s]; cbn; intros [= <-]; try reflexivity.
  unfold json_parse.
  rewrite !bool_decide_eq_false_2 by (unfold dquote; discriminate).
  unfold is_char. rewrite bool_decide_eq_true_2 by reflexivity.
  rewrite unquote_quote_body. reflexivity.
Qed.

Lemma json_stringify_truthy v t : json_stringify v = Some t → t ≠ "".
Proof. destruct v as [|[]|s]; cbn; intros [= <-]; discriminate. Qed.

#[export] Instance json_JSON : JSON json := {|
  JSON_stringify := json_stringify;
  JSON_parse := json_parse;
  JSON_null := JNull;
  JSON_stringify_null := eq_refl;
  JSON_parse_stringify := json_parse_stringify;
  JSON_stringify_truthy := json_stringify_truthy;
|}.


(** Concrete states and values for the runs at the end. *)
Section concrete.
Local Open Scope N_scope.

(** A key holding text that is not JSON. *)
Definition corrupted : CacheService json :=
  with_db {[ "k" := ("{oops", 100) ]} (start true).

(** The value of the repository's size-limit test: more than 1 MiB of [x]. *)
Definition largeObject : json := JString (repeat_x (1024 * 1024 + 100)).

(** The three keys of the pattern test. *)
Definition three_keys : CacheService json :=
  run (start true)
    [SetCalled "a:1" (JString "one") 60 OK; SetCalled "a:2" (JString "two") 60 OK;
     SetCalled "b:1" (JString "three") 60 OK].

End concrete.

(** * Properties *)

Local Open Scope list_scope.
Local Open Scope nat_scope.

Ltac unfold_cmd :=
  unfold exec, invalidate, get_begin, get_resume, request_fetched, request_stored,
    settles, cache_set, set_begin, set_resume, cache_delete, deletePattern, flushAll,
    getStats,
    client_get, client_setex, client_del, client_keys, client_flushall,
    invoke, settle_call, settle_job, try_catch, try_finally, or_throw,
    bind, ret, throw, read, update in *.

Section properties.
Context {V : Type} `{!JSON V}.
Implicit Types (s : CacheService V) (key : string) (f : fetcher) (ttl : N) (o : settled V).

(** "The client is absent or its liveness check reports unavailable" is the
    guard of the code. *)
Lemma unavailable_iff (r : RedisClient) :
  unavailable r = true ↔ client r = false ∨ isAvailable r = false.
Proof.
  unfold unavailable, getClient, isAvailable.
  destruct (client r), (isConnected r); cbn; intuition congruence.
Qed.

Lemma run_app s es1 es2 : run s (es1 ++ es2) = run (run s es1) es2.
Proof. apply foldl_app. Qed.

Lemma run_cons s e es : run s (e :: es) = run (step s e) es.
Proof. reflexivity. Qed.

(** ** One transition at a time *)

Lemma get_begin_available s key f ttl :
  unavailable (redisClient s) = false →
  step s (Get key f ttl) = with_calls (calls s ++ [AwaitingRead key f ttl]) s.
Proof. intros Hup. cbn. unfold_cmd. by rewrite Hup. Qed.

Lemma get_begin_unavailable s key f ttl :
  unavailable (redisClient s) = true →
  step s (Get key f ttl)
  = with_calls (calls s ++ [Follows (length (jobs s))])
      (with_jobs (jobs s ++ [Job f (Fetching None)]) s).
Proof. intros Hdown. cbn. unfold_cmd. by rewrite Hdown. Qed.

Lemma resume_hit s c key f ttl text value :
  calls s !! c = Some (AwaitingRead key f ttl) →
  truthy (cached s key) = Some text →
  JSON_parse text = Some value →
  step s (ReadReplied c OK)
  = with_calls (<[c := Returned value]> (calls s))
      (with_stats (stats_hits s + 1) (stats_misses s) s).
Proof. intros Hc Ht Hp. cbn. rewrite Hc. unfold_cmd. cbn. by rewrite Ht, Hp. Qed.

Lemma resume_undecodable s c key f ttl text :
  calls s !! c = Some (AwaitingRead key f ttl) →
  truthy (cached s key) = Some text →
  JSON_parse text = None →
  step s (ReadReplied c OK)
  = with_calls (<[c := Follows (length (jobs s))]> (calls s))
      (with_jobs (jobs s ++ [Job f (Fetching None)])
         (with_stats (stats_hits s + 1) (stats_misses s) s)).
Proof. intros Hc Ht Hp. cbn. rewrite Hc. unfold_cmd. cbn. by rewrite Ht, Hp. Qed.

Lemma resume_miss_join s c key f ttl j :
  calls s !! c = Some (AwaitingRead key f ttl) →
  truthy (cached s key) = None →
  pendingRequests s !! key = Some j →
  step s (ReadReplied c OK)
  = with_calls (<[c := Follows j]> (calls s))
      (with_stats (stats_hits s) (stats_misses s + 1) s).
Proof. intros Hc Ht Hp. cbn. rewrite Hc. unfold_cmd. cbn. by rewrite Ht, Hp. Qed.

Lemma resume_miss_fetch s c key f ttl :
  calls s !! c = Some (AwaitingRead key f ttl) →
  truthy (cached s key) = None →
  pendingRequests s !! key = None →
  step s (ReadReplied c OK)
  = with_calls (<[c := Follows (length (jobs s))]> (calls s))
      (with_pendingRequests (<[key := length (jobs s)]> (pendingRequests s))
         (with_jobs (jobs s ++ [Job f (Fetching (Some (key, ttl)))])
            (with_stats (stats_hits s) (stats_misses s + 1) s))).
Proof. intros Hc Ht Hp. cbn. rewrite Hc. unfold_cmd. cbn. by rewrite Ht, Hp. Qed.

Lemma resume_error s c key f ttl :
  calls s !! c = Some (AwaitingRead key f ttl) →
  step s (ReadReplied c ERR)
  = with_calls (<[c := Follows (length (jobs s))]> (calls s))
      (with_jobs (jobs s ++ [Job f (Fetching None)]) s).
Proof. intros Hc. cbn. by rewrite Hc. Qed.

Lemma set_begin_issues s (value : V) :
  set_begin value s = (inr (set_issues s value), s).
Proof.
  unfold set_issues. unfold_cmd. destruct (unavailable _); [done|].
  destruct (JSON_stringify value) as [text|]; cbn; [|done].
  by destruct (_ <? _)%N.
Qed.

Lemma set_issues_storable s (value : V) text :
  unavailable (redisClient s) = false →
  JSON_stringify value = Some text →
  (N.of_nat (String.length text) ≤ MAX_OBJECT_SIZE)%N →
  set_issues s value = Some text.
Proof.
  intros Hup Hser Hfit. unfold set_issues.
  by rewrite Hup, Hser, (proj2 (N.ltb_ge _ _)).
Qed.

Lemma fetch_stores s j f key ttl data text :
  jobs s !! j = Some (Job f (Fetching (Some (key, ttl)))) →
  set_issues s data = Some text →
  step s (FetchSettled j (Fulfilled data))
  = with_jobs (alter (λ jb, Job (invoked jb) (Storing key ttl data text)) j (jobs s)) s.
Proof.
  intros Hj Hs. cbn. rewrite Hj. unfold exec, request_fetched, bind.
  by rewrite set_begin_issues, Hs.
Qed.

Lemma fetch_skips s j f key ttl data :
  jobs s !! j = Some (Job f (Fetching (Some (key, ttl)))) →
  set_issues s data = None →
  step s (FetchSettled j (Fulfilled data))
  = with_jobs (alter (λ jb, Job (invoked jb) (Settled (Fulfilled data))) j (jobs s))
      (with_pendingRequests (delete key (pendingRequests s)) s).
Proof.
  intros Hj Hs. cbn. rewrite Hj. unfold exec, request_fetched, bind.
  by rewrite set_begin_issues, Hs.
Qed.

Lemma fetch_rejected s j f key ttl error :
  jobs s !! j = Some (Job f (Fetching (Some (key, ttl)))) →
  step s (FetchSettled j (Rejected error))
  = with_jobs (alter (λ jb, Job (invoked jb) (Settled (Rejected error))) j (jobs s))
      (with_pendingRequests (delete key (pendingRequests s)) s).
Proof. intros Hj. cbn. by rewrite Hj. Qed.

Lemma fetch_direct s j f o :
  jobs s !! j = Some (Job f (Fetching None)) →
  step s (FetchSettled j o)
  = with_jobs (alter (λ jb, Job (invoked jb) (Settled o)) j (jobs s)) s.
Proof. intros Hj. cbn. by rewrite Hj. Qed.

Lemma cache_set_effect s key (value : V) ttl r :
  cache_set key value ttl r s = (inr tt, with_db (set_effect s key value ttl r) s).
Proof.
  assert (Hid : with_db (db s) s = s) by by destruct s.
  unfold set_effect. unfold_cmd. cbn. destruct (unavailable _); [by rewrite Hid|].
  destruct (JSON_stringify value) as [text|]; cbn; [|by rewrite Hid].
  destruct r, (_ <? _)%N; cbn; by rewrite ?Hid.
Qed.

Lemma set_finished s j f key ttl data text r :
  jobs s !! j = Some (Job f (Storing key ttl data text)) →
  step s (SetFinished j r)
  = with_jobs (alter (λ jb, Job (invoked jb) (Settled (Fulfilled data))) j (jobs s))
      (with_pendingRequests (delete key (pendingRequests s))
         (with_db (setex_effect s key ttl text r) s)).
Proof.
  assert (Hid : with_db (db s) s = s) by by destruct s.
  intros Hj. cbn. rewrite Hj. unfold_cmd. destruct r; cbn; by rewrite ?Hid.
Qed.

Lemma set_effect_issued s key (value : V) ttl r :
  set_effect s key value ttl r
  = match set_issues s value with
    | Some text => setex_effect s key ttl text r
    | None => db s
    end.
Proof.
  unfold set_effect, set_issues, setex_effect. destruct (unavailable _); [done|].
  destruct (JSON_stringify value) as [text|]; [|done].
  by destruct r, (_ <? _)%N.
Qed.

(** ** The operations other than [get] never throw *)
Lemma cache_set_returns key (value : V) ttl r s : (cache_set key value ttl r s).1 = inr tt.
Proof.
  unfold_cmd. destruct (unavailable _); [reflexivity|].
  destruct (JSON_stringify value) as [text|]; cbn; [|reflexivity].
  destruct (_ <? _)%N; [reflexivity|]. destruct r; reflexivity.
Qed.

Lemma cache_delete_returns key r s : (cache_delete key r s).1 = inr tt.
Proof. unfold_cmd. destruct (unavailable _); [reflexivity|]. destruct r; reflexivity. Qed.

Lemma deletePattern_returns pattern r1 r2 s : (deletePattern pattern r1 r2 s).1 = inr tt.
Proof.
  unfold_cmd. destruct (unavailable _); [reflexivity|].
  destruct r1; cbn; [|reflexivity].
  destruct (length _); [reflexivity|]. destruct r2; reflexivity.
Qed.

Lemma flushAll_returns r s : (flushAll r s).1 = inr tt.
Proof. unfold_cmd. destruct (unavailable _); [reflexivity|]. destruct r; reflexivity. Qed.

(** ** Fallback mode *)

(** C10. When the client is absent or reports unavailable, a call of [get]
    leaves the hit counter, the miss counter and the in-flight registry as
    they were and invokes its fetcher exactly once, also when the fetch
    settles; two concurrent calls on one key start one job each, with no
    coalescing. *)
Theorem get_fallback_frame s key f1 f2 ttl1 ttl2 o :
  client (redisClient s) = false ∨ isAvailable (redisClient s) = false →
  let j := length (jobs s) in
  let s1 := step s (Get key f1 ttl1) in
  let s1' := step s1 (FetchSettled j o) in
  let s2 := step s1 (Get key f2 ttl2) in
  (stats_hits s1 = stats_hits s ∧ stats_misses s1 = stats_misses s
   ∧ pendingRequests s1 = pendingRequests s
   ∧ jobs s1 = jobs s ++ [Job f1 (Fetching None)]
   ∧ invocations f1 s1 = S (invocations f1 s))
  ∧ (stats_hits s1' = stats_hits s ∧ stats_misses s1' = stats_misses s
     ∧ pendingRequests s1' = pendingRequests s
     ∧ jobs s1' = jobs s ++ [Job f1 (Settled o)])
  ∧ (stats_hits s2 = stats_hits s ∧ stats_misses s2 = stats_misses s
     ∧ pendingRequests s2 = pendingRequests s
     ∧ jobs s2 = jobs s ++ [Job f1 (Fetching None); Job f2 (Fetching None)]
     ∧ calls s2 = calls s ++ [Follows j; Follows (S j)]).
Proof.
  intros Hdown%unavailable_iff. cbn zeta.
  assert (Hs1 : step s (Get key f1 ttl1)
                = with_calls (calls s ++ [Follows (length (jobs s))])
                    (with_jobs (jobs s ++ [Job f1 (Fetching None)]) s)).
  { cbn. unfold_cmd. rewrite Hdown. reflexivity. }
  rewrite Hs1. split; [|split].
  - cbn. repeat split; try reflexivity.
    unfold invocations. cbn. rewrite filter_app, length_app. cbn.
    rewrite decide_True by reflexivity. cbn. lia.
  - cbn. rewrite lookup_app_r by lia. rewrite Nat.sub_diag. cbn.
    repeat split; try reflexivity.
    unfold_cmd. cbn. rewrite alter_app_r_alt by lia. rewrite Nat.sub_diag. reflexivity.
  - cbn. unfold_cmd. cbn. rewrite Hdown. cbn.
    rewrite length_app. cbn. rewrite Nat.add_1_r, <- !app_assoc. cbn.
    repeat split; reflexivity.
Qed.

(** C4. When the client is absent or reports unavailable, [get] throws
    nothing of its own and hands back the promise of [fetch()] itself, so the
    caller receives exactly what the fetch settles to; the cache is not
    written; and [set], [delete], [deletePattern] and [flushAll] return
    without changing anything. *)
Theorem fail_open s key f ttl o (value : V) pattern r r' :
  client (redisClient s) = false ∨ isAvailable (redisClient s) = false →
  let c := length (calls s) in
  let j := length (jobs s) in
  let s1 := step s (Get key f ttl) in
  let s2 := step s1 (FetchSettled j o) in
  ((get_begin key f ttl s).1 = inr tt
   ∧ calls s1 !! c = Some (Follows j)
   ∧ jobs s1 !! j = Some (Job f (Fetching None))
   ∧ received s2 c = Some o
   ∧ db s1 = db s ∧ db s2 = db s)
  ∧ cache_set key value ttl r s = (inr tt, s)
  ∧ cache_delete key r s = (inr tt, s)
  ∧ deletePattern pattern r r' s = (inr tt, s)
  ∧ flushAll r s = (inr tt, s).
Proof.
  intros Hdown%unavailable_iff. cbn zeta.
  assert (Hs1 : step s (Get key f ttl)
                = with_calls (calls s ++ [Follows (length (jobs s))])
                    (with_jobs (jobs s ++ [Job f (Fetching None)]) s)).
  { cbn. unfold_cmd. rewrite Hdown. reflexivity. }
  split; [|by unfold_cmd; rewrite Hdown].
  split; [by unfold_cmd; rewrite Hdown|].
  rewrite Hs1. cbn.
  rewrite !(lookup_app_r (jobs s)) by lia. rewrite Nat.sub_diag. cbn.
  split; [by rewrite lookup_app_r, Nat.sub_diag by lia|].
  split; [reflexivity|].
  split; [|done].
  unfold received, exec, settle_job, update. cbn.
  rewrite lookup_app_r, Nat.sub_diag by lia. cbn.
  rewrite alter_app_r_alt, Nat.sub_diag by lia. cbn.
  by rewrite lookup_app_r, Nat.sub_diag by lia.
Qed.

(** ** Read-through *)

Lemma cached_truthy s key text (value : V) :
  cached s key = Some text → JSON_stringify value = Some text →
  truthy (cached s key) = Some text ∧ JSON_parse text = Some value.
Proof.
  intros -> Hs. cbn. rewrite bool_decide_eq_false_2 by by eapply JSON_stringify_truthy.
  split; [done|]. by apply JSON_parse_stringify.
Qed.

(** A whole [get] on a miss with nothing in flight: lookup, fetch, [set]. *)
Lemma get_populates s key f ttl (value : V) r :
  unavailable (redisClient s) = false →
  truthy (cached s key) = None →
  pendingRequests s !! key = None →
  run s [Get key f ttl; ReadReplied (length (calls s)) OK;
         FetchSettled (length (jobs s)) (Fulfilled value);
         SetFinished (length (jobs s)) r]
  = {| redisClient := redisClient s; now := now s;
       db := set_effect s key value ttl r;
       pendingRequests := pendingRequests s;
       stats_hits := stats_hits s; stats_misses := stats_misses s + 1;
       calls := calls s ++ [Follows (length (jobs s))];
       jobs := jobs s ++ [Job f (Settled (Fulfilled value))] |}.
Proof.
  intros Hup Hmiss Hnone. unfold run. cbn [foldl].
  rewrite get_begin_available by done.
  erewrite resume_miss_fetch; cbn -[step]; [|by apply list_lookup_middle|done|done].
  rewrite set_effect_issued.
  destruct (set_issues s value) as [text|] eqn:Hissued.
  - erewrite fetch_stores; cbn -[step]; [|by apply list_lookup_middle|done].
    erewrite set_finished; cbn -[step];
      [|rewrite alter_app_r_alt, Nat.sub_diag by lia; by apply list_lookup_middle].
    rewrite delete_insert_id by done.
    rewrite insert_app_r_alt, Nat.sub_diag by lia.
    rewrite !alter_app_r_alt, !Nat.sub_diag by (rewrite ?length_app; cbn; lia).
    reflexivity.
  - erewrite fetch_skips; cbn -[step]; [|by apply list_lookup_middle|done].
    rewrite delete_insert_id by done.
    rewrite insert_app_r_alt, Nat.sub_diag by lia.
    rewrite !alter_app_r_alt, !Nat.sub_diag by (rewrite ?length_app; cbn; lia).
    cbn. rewrite lookup_app_r, Nat.sub_diag by lia. reflexivity.
Qed.

(** A whole [get] on a stored, decodable value. *)
Lemma get_served s key f ttl text (value : V) :
  unavailable (redisClient s) = false →
  truthy (cached s key) = Some text →
  JSON_parse text = Some value →
  run s [Get key f ttl; ReadReplied (length (calls s)) OK]
  = with_calls (calls s ++ [Returned value])
      (with_stats (stats_hits s + 1) (stats_misses s) s).
Proof.
  intros Hup Hhit Hparse. unfold run. cbn [foldl].
  rewrite get_begin_available by done.
  erewrite resume_hit; cbn -[step]; [|by apply list_lookup_middle|done|done].
  by rewrite insert_app_r_alt, Nat.sub_diag by lia.
Qed.

Lemma received_returned s c (value : V) :
  calls s !! c = Some (Returned value) → received s c = Some (Fulfilled value).
Proof. unfold received. by intros ->. Qed.

Lemma received_follows s c j f o :
  calls s !! c = Some (Follows j) → jobs s !! j = Some (Job f (Settled o)) →
  received s c = Some o.
Proof. unfold received. by intros -> ->. Qed.

(** A [get] that misses, fetches and stores, then a second [get] within the
    time to live. *)
Lemma get_then_get s key fetch fetch2 ttl ttl2 (value : V) text elapsed :
  unavailable (redisClient s) = false →
  truthy (cached s key) = None →
  pendingRequests s !! key = None →
  JSON_stringify value = Some text →
  (N.of_nat (String.length text) ≤ MAX_OBJECT_SIZE)%N →
  (elapsed < ttl)%N →
  let c := length (calls s) in
  let j := length (jobs s) in
  let s1 := run s [Get key fetch ttl; ReadReplied c OK;
                   FetchSettled j (Fulfilled value); SetFinished j OK] in
  let s2 := run s1 [Tick elapsed; Get key fetch2 ttl2; ReadReplied (S c) OK] in
  invocations fetch s1 = S (invocations fetch s)
  ∧ received s1 c = Some (Fulfilled value)
  ∧ db s1 !! key = Some (text, (now s + ttl)%N)
  ∧ received s2 (S c) = Some (Fulfilled value)
  ∧ jobs s2 = jobs s1.
Proof.
  intros Hup Hmiss Hnone Hser Hsize Hlt. cbn zeta.
  rewrite get_populates by done.
  assert (Hdb : set_effect s key value ttl OK = redis_setex (now s) key ttl text (db s)).
  { unfold set_effect. rewrite Hup, Hser.
    by rewrite (proj2 (N.ltb_ge _ _)) by done. }
  rewrite Hdb.
  split; [|split; [|split]].
  - unfold invocations. cbn. rewrite filter_app, length_app. cbn.
    rewrite decide_True by done. cbn. lia.
  - eapply received_follows; cbn; by apply list_lookup_middle.
  - unfold redis_setex. cbn. by rewrite lookup_insert_eq.
  - rewrite run_cons. cbn [step].
    match goal with |- context [run ?s0 _] => set (s1 := s0) end.
    assert (Hc : cached s1 key = Some text).
    { unfold cached, redis_get, s1. cbn. unfold redis_setex. rewrite lookup_insert_eq.
      by rewrite (proj2 (N.ltb_lt _ _)) by lia. }
    destruct (cached_truthy s1 key text value Hc Hser) as [Ht Hp].
    assert (Hlen : S (length (calls s)) = length (calls s1))
      by (unfold s1; cbn; rewrite length_app; cbn; lia).
    rewrite Hlen, (get_served s1 key fetch2 ttl2 text value) by done.
    split; [|done].
    apply received_returned. by apply list_lookup_middle.
Qed.

(** C3. If [get(key, fetch, ttl)] missed, fetched [value] from the origin and
    cached it, a [get(key, fetch2, ttl2)] that follows before [ttl] seconds
    have passed receives [value] and invokes nothing, [fetch2] included. *)
Theorem read_through s key fetch fetch2 ttl ttl2 (value : V) text elapsed :
  unavailable (redisClient s) = false →
  truthy (cached s key) = None →
  pendingRequests s !! key = None →
  JSON_stringify value = Some text →
  (N.of_nat (String.length text) ≤ MAX_OBJECT_SIZE)%N →
  (elapsed < ttl)%N →
  let c := length (calls s) in
  let j := length (jobs s) in
  let s1 := run s [Get key fetch ttl; ReadReplied c OK;
                   FetchSettled j (Fulfilled value); SetFinished j OK] in
  let s2 := run s1 [Tick elapsed; Get key fetch2 ttl2; ReadReplied (S c) OK] in
  (invocations fetch s1 = S (invocations fetch s)
   ∧ received s1 c = Some (Fulfilled value)
   ∧ cached s1 key = Some text)
  ∧ received s2 (S c) = Some (Fulfilled value)
  ∧ jobs s2 = jobs s1
  ∧ invocations fetch2 s2 = invocations fetch2 s1.
Proof.
  intros Hup Hmiss Hnone Hser Hsize Hlt.
  destruct (get_then_get s key fetch fetch2 ttl ttl2 value text elapsed)
    as (Hinv & Hrec & Hdb & Hrec2 & Hjobs); try done.
  cbn zeta. repeat split; try done.
  - unfold cached, redis_get. rewrite Hdb. rewrite get_populates by done. cbn.
    by rewrite (proj2 (N.ltb_lt _ _)) by lia.
  - unfold invocations. by rewrite Hjobs.
Qed.

(** C8. A fetcher that resolves to [null] has its result stored like any
    other value (the text [null] is within the size limit), and a second
    [get] before expiry receives [null] from the cache without invoking its
    fetcher. *)
Theorem null_is_cached s key fetch fetch2 ttl ttl2 elapsed :
  unavailable (redisClient s) = false →
  truthy (cached s key) = None →
  pendingRequests s !! key = None →
  (elapsed < ttl)%N →
  let c := length (calls s) in
  let j := length (jobs s) in
  let s1 := run s [Get key fetch ttl; ReadReplied c OK;
                   FetchSettled j (Fulfilled JSON_null); SetFinished j OK] in
  let s2 := run s1 [Tick elapsed; Get key fetch2 ttl2; ReadReplied (S c) OK] in
  (received s1 c = Some (Fulfilled JSON_null)
   ∧ db s1 !! key = Some ("null", (now s + ttl)%N))
  ∧ received s2 (S c) = Some (Fulfilled JSON_null)
  ∧ jobs s2 = jobs s1
  ∧ invocations fetch2 s2 = invocations fetch2 s1.
Proof.
  intros Hup Hmiss Hnone Hlt.
  destruct (get_then_get s key fetch fetch2 ttl ttl2 JSON_null "null" elapsed)
    as (Hinv & Hrec & Hdb & Hrec2 & Hjobs); try done.
  { apply JSON_stringify_null. }
  cbn zeta. repeat split; try done.
  unfold invocations. by rewrite Hjobs.
Qed.

(** ** The size limit *)

Lemma with_db_same s : with_db (db s) s = s.
Proof. by destruct s. Qed.

(** A [get] on a key that is neither stored nor being fetched starts a
    registered fetch. *)
Lemma get_fetches s key f ttl :
  unavailable (redisClient s) = false →
  truthy (cached s key) = None →
  pendingRequests s !! key = None →
  run s [Get key f ttl; ReadReplied (length (calls s)) OK]
  = with_calls (calls s ++ [Follows (length (jobs s))])
      (with_pendingRequests (<[key := length (jobs s)]> (pendingRequests s))
         (with_jobs (jobs s ++ [Job f (Fetching (Some (key, ttl)))])
            (with_stats (stats_hits s) (stats_misses s + 1) s))).
Proof.
  intros Hup Hmiss Hnone. unfold run. cbn [foldl].
  rewrite get_begin_available by done.
  erewrite resume_miss_fetch; cbn -[step]; [|by apply list_lookup_middle|done|done].
  by rewrite insert_app_r_alt, Nat.sub_diag by lia.
Qed.

(** C6, as the code has it. [set] never throws. A value whose text is longer
    than 1 MiB changes nothing, so that a [get] on the key invokes its
    fetcher again provided the key was not stored before and no fetch for it
    is in flight. A text within the limit is stored with the given time to
    live once the available backend acknowledges the write. *)
Theorem size_limit s key (value : V) ttl r text :
  JSON_stringify value = Some text →
  let s1 := step s (SetCalled key value ttl r) in
  (cache_set key value ttl r s).1 = inr tt
  ∧ ((MAX_OBJECT_SIZE < N.of_nat (String.length text))%N →
     s1 = s
     ∧ ∀ f ttl',
         unavailable (redisClient s) = false →
         cached s key = None →
         pendingRequests s !! key = None →
         let s2 := run s1 [Get key f ttl'; ReadReplied (length (calls s1)) OK] in
         jobs s2 = jobs s1 ++ [Job f (Fetching (Some (key, ttl')))]
         ∧ invocations f s2 = S (invocations f s1))
  ∧ ((N.of_nat (String.length text) ≤ MAX_OBJECT_SIZE)%N →
     unavailable (redisClient s) = false → r = OK →
     db s1 = <[key := (text, (now s + ttl)%N)]> (db s)
     ∧ ∀ elapsed, (elapsed < ttl)%N →
         cached (step s1 (Tick elapsed)) key = Some text).
Proof.
  intros Hser. cbn zeta. cbn [step]. unfold exec. rewrite cache_set_effect. cbn [fst snd].
  split; [done|]. unfold set_effect. rewrite Hser. split.
  - intros Hbig. rewrite (proj2 (N.ltb_lt _ _)) by done.
    assert (Hsame : with_db (if unavailable (redisClient s) then db s
                             else match r with OK | _ => db s end) s = s).
    { destruct (unavailable _), r; apply with_db_same. }
    rewrite Hsame. split; [done|].
    intros f ttl' Hup Hnone Hreg. cbn zeta.
    rewrite get_fetches by (try done; by rewrite Hnone). cbn.
    split; [done|].
    unfold invocations. rewrite filter_app, length_app. cbn.
    rewrite decide_True by done. cbn. lia.
  - intros Hfit Hup ->. rewrite Hup, (proj2 (N.ltb_ge _ _)) by done. cbn.
    split; [done|]. intros elapsed Hlt.
    unfold cached, redis_get, redis_setex. cbn. rewrite lookup_insert_eq.
    by rewrite (proj2 (N.ltb_lt _ _)) by lia.
Qed.

(** ** Pattern invalidation *)

Lemma lookup_redis_del (keys : list string) (d : gmap string (string * N)) k :
  redis_del keys d !! k = if decide (k ∈ keys) then None else d !! k.
Proof.
  unfold redis_del. induction keys as [|k' keys IH]; cbn [foldr].
  - by rewrite decide_False by apply not_elem_of_nil.
  - destruct (decide (k = k')) as [->|Hne].
    + rewrite lookup_delete_eq. by rewrite decide_True by left.
    + rewrite lookup_delete_ne, IH by done.
      destruct (decide (k ∈ keys)) as [Hin|Hnin].
      * by rewrite decide_True by by right.
      * rewrite decide_False; [done|]. by intros [?|?]%elem_of_cons.
Qed.

Lemma elem_of_redis_keys t (d : gmap string (string * N)) pattern k :
  k ∈ redis_keys t d pattern ↔ is_Some (redis_get t d k) ∧ glob_match pattern k = true.
Proof.
  unfold redis_keys. rewrite list_elem_of_filter, elem_of_elements, elem_of_dom.
  split; [tauto|]. intros [Hlive Hm]. repeat split; try done.
  unfold redis_get in Hlive. destruct (d !! k); [done|]. by destruct Hlive.
Qed.

Lemma deletePattern_effect s pattern :
  unavailable (redisClient s) = false →
  step s (DeletePatternCalled pattern OK OK)
  = with_db (redis_del (redis_keys (now s) (db s) pattern) (db s)) s.
Proof.
  intros Hup. cbn. unfold_cmd. cbn. rewrite Hup. cbn.
  destruct (redis_keys _ _ _); cbn; [by rewrite with_db_same|done].
Qed.

Lemma cached_after_deletePattern s pattern k :
  unavailable (redisClient s) = false →
  cached (step s (DeletePatternCalled pattern OK OK)) k
  = if glob_match pattern k then None else cached s k.
Proof.
  intros Hup. rewrite deletePattern_effect by done.
  unfold cached, redis_get at 1. cbn. rewrite lookup_redis_del.
  destruct (decide _) as [Hin|Hnin].
  - apply elem_of_redis_keys in Hin as [_ ->]. done.
  - destruct (glob_match pattern k) eqn:Hm; [|done].
    destruct (redis_get (now s) (db s) k) eqn:Hg.
    + destruct Hnin. apply elem_of_redis_keys. by rewrite Hg.
    + unfold redis_get in Hg. destruct (db s !! k) as [[text expires]|]; [|done].
      by destruct (_ <? _)%N.
Qed.

(** C7. With the backend available, [deletePattern(pattern)] removes exactly
    the stored keys that match: afterwards a matching key is absent, so that
    a [get] on it (nothing being in flight) invokes its fetcher, and every
    other key answers as before, so that a [get] on a stored one receives the
    cached value without invoking anything. *)
Theorem pattern_invalidation s pattern :
  unavailable (redisClient s) = false →
  let s1 := step s (DeletePatternCalled pattern OK OK) in
  (∀ k, cached s1 k = if glob_match pattern k then None else cached s k)
  ∧ (∀ k f ttl,
       glob_match pattern k = true →
       pendingRequests s !! k = None →
       let s2 := run s1 [Get k f ttl; ReadReplied (length (calls s1)) OK] in
       jobs s2 = jobs s1 ++ [Job f (Fetching (Some (k, ttl)))]
       ∧ invocations f s2 = S (invocations f s1))
  ∧ (∀ k f ttl text (value : V),
       glob_match pattern k = false →
       cached s k = Some text →
       JSON_stringify value = Some text →
       let s2 := run s1 [Get k f ttl; ReadReplied (length (calls s1)) OK] in
       received s2 (length (calls s1)) = Some (Fulfilled value)
       ∧ jobs s2 = jobs s1).
Proof.
  intros Hup. cbn zeta.
  assert (Hup1 : unavailable (redisClient (step s (DeletePatternCalled pattern OK OK))) = false)
    by by rewrite deletePattern_effect.
  assert (Hreg : pendingRequests (step s (DeletePatternCalled pattern OK OK)) = pendingRequests s)
    by by rewrite deletePattern_effect.
  split; [intros k; by apply cached_after_deletePattern|]. split.
  - intros k f ttl Hm Hnone.
    rewrite get_fetches; try done.
    + cbn. split; [done|]. unfold invocations. rewrite filter_app, length_app. cbn.
      rewrite decide_True by done. cbn. lia.
    + by rewrite cached_after_deletePattern, Hm.
    + by rewrite Hreg.
  - intros k f ttl text value Hm Hc Hser.
    assert (Hc1 : cached (step s (DeletePatternCalled pattern OK OK)) k = Some text)
      by by rewrite cached_after_deletePattern, Hm.
    destruct (cached_truthy _ k text value Hc1 Hser) as [Ht Hp].
    rewrite (get_served _ k f ttl text value) by done.
    split; [|done]. apply received_returned. by apply list_lookup_middle.
Qed.

(** ** Undecodable entries *)

(** C5, as the code has it. When the stored text cannot be parsed, the error
    is caught; the fetcher is invoked directly, outside the in-flight
    registry; the caller receives whatever that fetch settles to; and
    neither the registry nor the stored entry changes, before or after the
    fetch settles. *)
Theorem undecodable_entry_falls_back s c key f ttl text o :
  calls s !! c = Some (AwaitingRead key f ttl) →
  truthy (cached s key) = Some text →
  JSON_parse text = None →
  let j := length (jobs s) in
  let s1 := step s (ReadReplied c OK) in
  let s2 := step s1 (FetchSettled j o) in
  (jobs s1 = jobs s ++ [Job f (Fetching None)]
   ∧ calls s1 !! c = Some (Follows j)
   ∧ pendingRequests s1 = pendingRequests s
   ∧ db s1 = db s)
  ∧ received s2 c = Some o
  ∧ pendingRequests s2 = pendingRequests s
  ∧ db s2 = db s.
Proof.
  intros Hc Ht Hp. cbn zeta.
  assert (Hlt : c < length (calls s)) by by eapply lookup_lt_Some.
  erewrite resume_undecodable by done.
  split.
  { cbn. repeat split; try done. by rewrite list_lookup_insert_eq. }
  erewrite fetch_direct by (cbn; by apply list_lookup_middle). cbn.
  repeat split; try done.
  eapply received_follows; cbn.
  - by rewrite list_lookup_insert_eq.
  - rewrite alter_app_r_alt, Nat.sub_diag by lia. by apply list_lookup_middle.
Qed.

(** ** The in-flight registry *)

Lemma in_flight_snoc (js : list (job V)) jb key j :
  in_flight (js ++ [jb]) key j
  ↔ in_flight js key j ∨ (j = length js ∧ registered_key jb = Some key).
Proof.
  unfold in_flight. split.
  - intros (jb' & Hj & Hk). apply lookup_snoc_Some in Hj as [[_ Hj]|[-> ->]]; eauto.
  - intros [(jb' & Hj & Hk)|[-> Hk]].
    + exists jb'. split; [|done]. apply lookup_snoc_Some. left.
      split; [by eapply lookup_lt_Some|done].
    + exists jb. split; [|done]. apply lookup_snoc_Some. by right.
Qed.

Lemma in_flight_alter (js : list (job V)) g i jb key j :
  js !! i = Some jb →
  in_flight (alter g i js) key j
  ↔ (j ≠ i ∧ in_flight js key j) ∨ (j = i ∧ registered_key (g jb) = Some key).
Proof.
  intros Hi. unfold in_flight. destruct (decide (j = i)) as [->|Hne].
  - rewrite list_lookup_alter_eq, Hi. cbn. split.
    + intros (jb' & [= <-] & Hk). by right.
    + intros [[? _]|[_ Hk]]; [done|]. eauto.
  - rewrite list_lookup_alter_ne by done. split; [by left|].
    by intros [[_ ?]|[? _]].
Qed.

Lemma consistent_snoc_free reg (js : list (job V)) jb :
  consistent reg js → registered_key jb = None → consistent reg (js ++ [jb]).
Proof.
  intros Hc Hk key j. unfold consistent in Hc. rewrite in_flight_snoc, Hc, Hk. split; [by left|].
  by intros [?|[_ ?]].
Qed.

Lemma consistent_snoc_registered reg (js : list (job V)) jb key :
  consistent reg js → reg !! key = None → registered_key jb = Some key →
  consistent (<[key := length js]> reg) (js ++ [jb]).
Proof.
  intros Hc Hnone Hk key' j. unfold consistent in Hc. rewrite in_flight_snoc, Hk.
  destruct (decide (key' = key)) as [->|Hne].
  - rewrite lookup_insert_eq. split.
    + intros [= <-]. by right.
    + intros [Hin|[-> _]]; [|done]. apply Hc in Hin. congruence.
  - rewrite lookup_insert_ne, Hc by done. split; [by left|].
    intros [?|[_ [= ->]]]; done.
Qed.

Lemma consistent_alter_keep reg (js : list (job V)) g i jb :
  consistent reg js → js !! i = Some jb →
  registered_key (g jb) = registered_key jb →
  consistent reg (alter g i js).
Proof.
  intros Hc Hi Hk key j. unfold consistent in Hc. rewrite (in_flight_alter _ _ _ jb) by done.
  rewrite Hc, Hk. split.
  - intros Hin. destruct (decide (j = i)) as [->|]; [right|by left].
    split; [done|]. destruct Hin as (jb' & Hj & ?). congruence.
  - intros [[_ ?]|[-> Hk']]; [done|]. by exists jb.
Qed.

Lemma consistent_settle reg (js : list (job V)) g i jb key :
  consistent reg js → js !! i = Some jb →
  registered_key jb = Some key → registered_key (g jb) = None →
  consistent (delete key reg) (alter g i js).
Proof.
  intros Hc Hi Hk Hk' key' j. unfold consistent in Hc. rewrite (in_flight_alter _ _ _ jb) by done.
  rewrite Hk'.
  assert (Hreg : reg !! key = Some i) by (apply Hc; by exists jb).
  destruct (decide (key' = key)) as [->|Hne].
  - rewrite lookup_delete_eq. split; [done|].
    intros [[Hne Hin]|[_ ?]]; [|done]. apply Hc in Hin. congruence.
  - rewrite lookup_delete_ne, Hc by done. split.
    + intros Hin. left. split; [|done]. intros ->.
      destruct Hin as (jb' & Hj & ?). congruence.
    + by intros [[_ ?]|[_ ?]].
Qed.

Lemma mutators_touch_db_only s (e : event V) :
  match e with
  | SetCalled _ _ _ _ | DeleteCalled _ _ | DeletePatternCalled _ _ _
  | InvalidateCalled _ _ | FlushAllCalled _ | GetStatsCalled => True
  | _ => False
  end →
  ∃ d, step s e = with_db d s.
Proof.
  destruct e; try done; intros _; cbn.
  - unfold exec. rewrite cache_set_effect. eauto.
  - unfold_cmd. cbn. destruct (unavailable _); [exists (db s); by rewrite with_db_same|].
    destruct r; cbn; eauto. exists (db s); by rewrite with_db_same.
  - unfold_cmd. cbn. destruct (unavailable _); [exists (db s); by rewrite with_db_same|].
    destruct r_keys; cbn; [|exists (db s); by rewrite with_db_same].
    destruct (length _); cbn; [exists (db s); by rewrite with_db_same|].
    destruct r_del; cbn; eauto. exists (db s); by rewrite with_db_same.
  - unfold_cmd. cbn. destruct (unavailable _); [exists (db s); by rewrite with_db_same|].
    destruct r; cbn; eauto. exists (db s); by rewrite with_db_same.
  - unfold_cmd. cbn. destruct (unavailable _); [exists (db s); by rewrite with_db_same|].
    destruct r; cbn; eauto. exists (db s); by rewrite with_db_same.
  - exists (db s). by rewrite with_db_same.
Qed.

Lemma step_consistent s (e : event V) :
  consistent (pendingRequests s) (jobs s) →
  consistent (pendingRequests (step s e)) (jobs (step s e)).
Proof.
  intros Hc.
  destruct e as [key f ttl|c r|j o|j r| | | | | | | | | |];
    try (by edestruct (mutators_touch_db_only s) as [d ->]); try done.
  - (* Get *)
    destruct (unavailable (redisClient s)) eqn:Hav.
    + rewrite get_begin_unavailable by done. by apply consistent_snoc_free.
    + by rewrite get_begin_available.
  - (* ReadReplied *)
    destruct (calls s !! c) as [[key f ttl|v|j]|] eqn:Hcall;
      try (cbn; by rewrite Hcall).
    destruct r; [|erewrite resume_error by done; by apply consistent_snoc_free].
    destruct (truthy (cached s key)) as [text|] eqn:Ht.
    + destruct (JSON_parse text) as [v|] eqn:Hp.
      * by erewrite resume_hit.
      * erewrite resume_undecodable by done. by apply consistent_snoc_free.
    + destruct (pendingRequests s !! key) as [j|] eqn:Hreg.
      * by erewrite resume_miss_join.
      * erewrite resume_miss_fetch by done. by apply consistent_snoc_registered.
  - (* FetchSettled *)
    destruct (jobs s !! j) as [[f [[[key ttl]|]|key ttl data text|o']]|] eqn:Hj;
      try (cbn; by rewrite Hj).
    + destruct o as [data|error].
      * destruct (set_issues s data) as [text|] eqn:Hissued.
        -- erewrite fetch_stores by done. by eapply consistent_alter_keep.
        -- erewrite fetch_skips by done. by eapply consistent_settle.
      * erewrite fetch_rejected by done. by eapply consistent_settle.
    + erewrite fetch_direct by done. by eapply consistent_alter_keep.
  - (* SetFinished *)
    destruct (jobs s !! j) as [[f [[[key ttl]|]|key ttl data text|o']]|] eqn:Hj;
      try (cbn; by rewrite Hj).
    erewrite set_finished by done. by eapply consistent_settle.
Qed.

Lemma run_consistent s (es : list (event V)) :
  consistent (pendingRequests s) (jobs s) →
  consistent (pendingRequests (run s es)) (jobs (run s es)).
Proof.
  revert s. induction es as [|e es IH]; intros s Hc; [done|].
  rewrite run_cons. by apply IH, step_consistent.
Qed.

Lemma start_consistent connected (s := start connected : CacheService V) :
  consistent (pendingRequests s) (jobs s).
Proof.
  intros key j. cbn. rewrite lookup_empty. split; [done|].
  by intros (jb & Hj & _).
Qed.

(** How one transition changes the registry: not at all, or by the entry of
    a lookup that missed, or by the removal [finally] does. *)
Lemma step_registry s (e : event V) :
  pendingRequests (step s e) = pendingRequests s
  ∨ (∃ c key f ttl,
       e = ReadReplied c OK ∧ calls s !! c = Some (AwaitingRead key f ttl)
       ∧ truthy (cached s key) = None ∧ pendingRequests s !! key = None
       ∧ pendingRequests (step s e) = <[key := length (jobs s)]> (pendingRequests s)
       ∧ jobs (step s e) = jobs s ++ [Job f (Fetching (Some (key, ttl)))])
  ∨ (∃ j f key ttl o,
       e = FetchSettled j o
       ∧ jobs s !! j = Some (Job f (Fetching (Some (key, ttl))))
       ∧ pendingRequests (step s e) = delete key (pendingRequests s))
  ∨ (∃ j f key ttl data text r,
       e = SetFinished j r
       ∧ jobs s !! j = Some (Job f (Storing key ttl data text))
       ∧ pendingRequests (step s e) = delete key (pendingRequests s)).
Proof.
  destruct e as [key f ttl|c r|j o|j r| | | | | | | | | |];
    try (left; by edestruct (mutators_touch_db_only s) as [d ->]); try by left.
  - left. destruct (unavailable (redisClient s)) eqn:Hav.
    + by rewrite get_begin_unavailable.
    + by rewrite get_begin_available.
  - destruct (calls s !! c) as [[key f ttl|v|j]|] eqn:Hcall;
      try (left; cbn; by rewrite Hcall).
    destruct r; [|left; by erewrite resume_error].
    destruct (truthy (cached s key)) as [text|] eqn:Ht.
    + left. destruct (JSON_parse text) as [v|] eqn:Hp.
      * by erewrite resume_hit.
      * by erewrite resume_undecodable.
    + destruct (pendingRequests s !! key) as [j|] eqn:Hreg.
      * left. by erewrite resume_miss_join.
      * right; left. exists c, key, f, ttl. by erewrite resume_miss_fetch.
  - destruct (jobs s !! j) as [[f [[[key ttl]|]|key ttl data text|o']]|] eqn:Hj;
      try (left; cbn; by rewrite Hj).
    destruct o as [data|error].
    + destruct (set_issues s data) as [text|] eqn:Hissued.
      * left. by erewrite fetch_stores.
      * right; right; left. exists j, f, key, ttl, (Fulfilled data).
        by erewrite fetch_skips.
    + right; right; left. exists j, f, key, ttl, (Rejected error).
      by erewrite fetch_rejected.
  - destruct (jobs s !! j) as [[f [[[key ttl]|]|key ttl data text|o']]|] eqn:Hj;
      try (left; cbn; by rewrite Hj).
    right; right; right. exists j, f, key, ttl, data, text, r.
    by erewrite set_finished.
Qed.

(** An entry stays through every event but the one that settles its
    computation. *)
Lemma entry_kept s (e : event V) key j f st :
  consistent (pendingRequests s) (jobs s) →
  pendingRequests s !! key = Some j →
  jobs s !! j = Some (Job f st) →
  match st with
  | Fetching _ => ∀ o, e ≠ FetchSettled j o
  | Storing _ _ _ _ => ∀ r, e ≠ SetFinished j r
  | Settled _ => True
  end →
  pendingRequests (step s e) !! key = Some j.
Proof.
  intros Hc Hreg Hj Hother.
  assert (Hsame : ∀ j' jb, jobs s !! j' = Some jb → registered_key jb = Some key → j' = j).
  { intros j' jb Hj' Hk.
    assert (pendingRequests s !! key = Some j') by (apply Hc; by exists jb).
    congruence. }
  destruct (step_registry s e)
    as [Heq|[(c & key' & f' & ttl & -> & Hcall & Ht & Hnone & Heq & Hjobs)
       |[(j' & f' & key' & ttl & o & -> & Hj' & Heq)
        |(j' & f' & key' & ttl & data & text & r & -> & Hj' & Heq)]]];
    rewrite Heq.
  - done.
  - rewrite lookup_insert_ne; [done|]. congruence.
  - destruct (decide (key' = key)) as [->|Hne]; [|by rewrite lookup_delete_ne].
    assert (j' = j) as -> by by eapply Hsame.
    rewrite Hj in Hj'. injection Hj' as _ ->. by destruct (Hother o).
  - destruct (decide (key' = key)) as [->|Hne]; [|by rewrite lookup_delete_ne].
    assert (j' = j) as -> by by eapply Hsame.
    rewrite Hj in Hj'. injection Hj' as _ ->. by destruct (Hother r).
Qed.

(** C2, as the code has it. In every reachable state the registry holds
    exactly the pending shared computations, at most one per key. An entry
    appears only when a lookup misses and the key has none. An entry goes at
    the transition that settles its computation and at no other: while the
    fetch is pending, at its rejection, or at its fulfilment when [set]
    returns without a command (backend unavailable, value not serializable
    or over the limit); when [set] has sent the value, the entry outlives the
    fetch and goes only at the backend's reply to the write. *)
Theorem registry_invariant (connected : bool) (es : list (event V)) (e : event V) :
  let s := run (start connected) es in
  let s' := step s e in
  (∀ key j, pendingRequests s !! key = Some j ↔ in_flight (jobs s) key j)
  ∧ (∀ key j1 j2, in_flight (jobs s) key j1 → in_flight (jobs s) key j2 → j1 = j2)
  ∧ (∀ key j,
       pendingRequests s !! key = None → pendingRequests s' !! key = Some j →
       ∃ c f ttl,
         e = ReadReplied c OK ∧ calls s !! c = Some (AwaitingRead key f ttl)
         ∧ truthy (cached s key) = None ∧ j = length (jobs s)
         ∧ jobs s' = jobs s ++ [Job f (Fetching (Some (key, ttl)))])
  ∧ (∀ key j,
       pendingRequests s !! key = Some j →
       ∃ f ttl,
         (jobs s !! j = Some (Job f (Fetching (Some (key, ttl))))
          ∧ (∀ error, e = FetchSettled j (Rejected error) →
               pendingRequests s' !! key = None
               ∧ jobs s' !! j = Some (Job f (Settled (Rejected error))))
          ∧ (∀ data, e = FetchSettled j (Fulfilled data) →
               match set_issues s data with
               | Some text =>
                   pendingRequests s' !! key = Some j
                   ∧ jobs s' !! j = Some (Job f (Storing key ttl data text))
               | None =>
                   pendingRequests s' !! key = None
                   ∧ jobs s' !! j = Some (Job f (Settled (Fulfilled data)))
               end)
          ∧ ((∀ o, e ≠ FetchSettled j o) → pendingRequests s' !! key = Some j))
         ∨ (∃ data text,
              jobs s !! j = Some (Job f (Storing key ttl data text))
              ∧ (∀ r, e = SetFinished j r →
                   pendingRequests s' !! key = None
                   ∧ jobs s' !! j = Some (Job f (Settled (Fulfilled data))))
              ∧ ((∀ r, e ≠ SetFinished j r) → pendingRequests s' !! key = Some j))).
Proof.
  cbn zeta. set (s := run (start connected) es).
  assert (Hc : consistent (pendingRequests s) (jobs s))
    by apply run_consistent, start_consistent.
  split; [exact Hc|]. split.
  { intros key j1 j2 H1%Hc H2%Hc. congruence. }
  split.
  - intros key j Hnone Hsome.
    destruct (step_registry s e)
      as [Heq|[(c & key' & f & ttl & -> & Hcall & Ht & Hreg & Heq & Hjobs)
         |[(j' & f & key' & ttl & o & -> & Hj & Heq)
          |(j' & f & key' & ttl & data & text & r & -> & Hj & Heq)]]];
      rewrite Heq in Hsome.
    + congruence.
    + destruct (decide (key' = key)) as [->|Hne].
      * rewrite lookup_insert_eq in Hsome. injection Hsome as <-.
        by exists c, f, ttl.
      * rewrite lookup_insert_ne in Hsome by done. congruence.
    + apply lookup_delete_Some in Hsome as [_ ?]. congruence.
    + apply lookup_delete_Some in Hsome as [_ ?]. congruence.
  - intros key j Hsome.
    destruct (proj1 (Hc key j) Hsome) as ([f st] & Hj & Hk).
    destruct st as [[[key' ttl]|]|key' ttl data text|o]; try done;
      injection Hk as ->; exists f, ttl.
    + left. split; [done|]. split; [|split].
      * intros error ->. erewrite fetch_rejected by done. cbn.
        by rewrite lookup_delete_eq, list_lookup_alter_eq, Hj.
      * intros data ->. destruct (set_issues s data) as [text|] eqn:Hissued.
        -- erewrite fetch_stores by done. cbn.
           by rewrite list_lookup_alter_eq, Hj.
        -- erewrite fetch_skips by done. cbn.
           by rewrite lookup_delete_eq, list_lookup_alter_eq, Hj.
      * intros Hother. by eapply entry_kept.
    + right. exists data, text. split; [done|]. split.
      * intros r ->. erewrite set_finished by done. cbn.
        by rewrite lookup_delete_eq, list_lookup_alter_eq, Hj.
      * intros Hother. by eapply entry_kept.
Qed.

(** ** Stampede protection *)

(** The states of a burst of calls on [key] that started in [s0]: nothing
    but the calls, the miss counter and, from the first answered lookup on,
    one registered job has changed. *)
Record burst (s0 : CacheService V) key f ttl (s : CacheService V) : Prop := {
  burst_client : redisClient s = redisClient s0;
  burst_now : now s = now s0;
  burst_db : db s = db s0;
  burst_calls : ∃ new,
    calls s = calls s0 ++ new
    ∧ Forall (λ st, st = AwaitingRead key f ttl ∨ st = Follows (length (jobs s0))) new
    ∧ ((jobs s = jobs s0 ∧ pendingRequests s = pendingRequests s0
        ∧ Forall (λ st, st = AwaitingRead key f ttl) new)
       ∨ (jobs s = jobs s0 ++ [Job f (Fetching (Some (key, ttl)))]
          ∧ pendingRequests s = <[key := length (jobs s0)]> (pendingRequests s0)));
}.

Lemma burst_start s0 key f ttl : burst s0 key f ttl s0.
Proof.
  split; try done. exists []. rewrite app_nil_r. repeat split; try done. by left.
Qed.

Lemma burst_step s0 key f ttl s e :
  unavailable (redisClient s0) = false →
  cached s0 key = None →
  pendingRequests s0 !! key = None →
  burst s0 key f ttl s →
  arrival key f ttl (length (calls s0)) e →
  burst s0 key f ttl (step s e).
Proof.
  intros Hup Hunc Hnone [Hcl Hnow Hdb (new & Hcalls & Hnew & Hphase)] Harr.
  assert (Hup' : unavailable (redisClient s) = false) by by rewrite Hcl.
  assert (Hmiss : truthy (cached s key) = None).
  { unfold cached in *. by rewrite Hnow, Hdb, Hunc. }
  destruct Harr as [->|(c & Hc & ->)].
  - rewrite get_begin_available by done. split; try done. cbn.
    exists (new ++ [AwaitingRead key f ttl]).
    rewrite Hcalls, <- app_assoc. split; [done|]. split.
    + apply Forall_app. split; [done|]. apply Forall_singleton. by left.
    + destruct Hphase as [(Hj & Hr & Hall)|Hphase]; [left|by right].
      repeat split; try done. apply Forall_app. split; [done|].
      by apply Forall_singleton.
  - destruct (calls s !! c) as [st|] eqn:Hst;
      [|cbn; rewrite Hst; split; try done; by exists new].
    assert (Hst' : new !! (c - length (calls s0)) = Some st).
    { rewrite Hcalls, lookup_app_r in Hst by done. done. }
    assert (Hins : ∀ st', <[c := st']> (calls s) = calls s0 ++ <[c - length (calls s0) := st']> new).
    { intros st'. by rewrite Hcalls, insert_app_r_alt by done. }
    pose proof (Forall_lookup_1 _ _ _ _ Hnew Hst') as [->| ->];
      [|cbn; rewrite Hst; split; try done; by exists new].
    destruct Hphase as [(Hj & Hr & Hall)|[Hj Hr]].
    + erewrite resume_miss_fetch by (try done; by rewrite Hr).
      split; try done. cbn.
      exists (<[c - length (calls s0) := Follows (length (jobs s0))]> new).
      rewrite Hj, Hr. split; [apply Hins|]. split; [|by right].
      apply Forall_insert; [done|by right].
    + erewrite resume_miss_join by (try done; rewrite Hr; apply lookup_insert_eq).
      split; try done. cbn.
      exists (<[c - length (calls s0) := Follows (length (jobs s0))]> new).
      split; [apply Hins|]. split; [|by right].
      apply Forall_insert; [done|by right].
Qed.

Lemma burst_run s0 key f ttl es :
  unavailable (redisClient s0) = false →
  cached s0 key = None →
  pendingRequests s0 !! key = None →
  Forall (arrival key f ttl (length (calls s0))) es →
  burst s0 key f ttl (run s0 es).
Proof.
  intros Hup Hunc Hnone Hes.
  assert (Hgen : ∀ s, burst s0 key f ttl s → burst s0 key f ttl (run s es)).
  { induction Hes as [|e es He Hes IH]; intros s Hb; [done|].
    rewrite run_cons. by apply IH, burst_step. }
  apply Hgen, burst_start.
Qed.

(** C1. Let N ≥ 2 calls [get(key, f, ttl)] arrive, on a key that is neither
    stored nor being fetched, while the backend is available, and let every
    one of them have its lookup answered before the fetch settles. Then [f]
    was invoked exactly once, the one job of the burst; when it settles
    every one of the N callers receives its outcome, the same value or the
    same rejection; and after a rejection the backend holds what it held. *)
Theorem stampede_protection s key f ttl es n o r :
  unavailable (redisClient s) = false →
  cached s key = None →
  pendingRequests s !! key = None →
  Forall (arrival key f ttl (length (calls s))) es →
  let j := length (jobs s) in
  let s1 := run s es in
  let s2 := run s1 [FetchSettled j o; SetFinished j r] in
  length (calls s1) = length (calls s) + n →
  2 ≤ n →
  (∀ c st, calls s1 !! c = Some st → length (calls s) ≤ c → answered st = true) →
  (jobs s1 = jobs s ++ [Job f (Fetching (Some (key, ttl)))]
   ∧ invocations f s1 = S (invocations f s))
  ∧ (jobs s2 = jobs s ++ [Job f (Settled o)]
     ∧ invocations f s2 = S (invocations f s))
  ∧ (∀ c, length (calls s) ≤ c < length (calls s) + n → received s2 c = Some o)
  ∧ (∀ error, o = Rejected error → db s2 = db s)
  ∧ pendingRequests s2 !! key = None.
Proof.
  intros Hup Hunc Hnone Hes. cbn zeta. intros Hlen Hn Hans.
  destruct (burst_run s key f ttl es Hup Hunc Hnone Hes)
    as [Hcl Hnow Hdb (new & Hcalls & Hnew & Hphase)].
  set (s1 := run s es) in *.
  assert (Hlnew : length new = n).
  { rewrite Hcalls, length_app in Hlen. lia. }
  assert (Hfollow : Forall (λ st, st = Follows (length (jobs s))) new).
  { apply Forall_lookup_2. intros i st Hi.
    pose proof (Forall_lookup_1 _ _ _ _ Hnew Hi) as [->|]; [|done].
    specialize (Hans (length (calls s) + i) (AwaitingRead key f ttl)).
    rewrite Hcalls, lookup_app_r, Nat.add_comm, Nat.add_sub in Hans by lia.
    specialize (Hans Hi). cbn in Hans. discriminate Hans; lia. }
  destruct Hphase as [(_ & _ & Hall)|[Hj Hr]].
  { destruct new as [|st new]; [cbn in Hlnew; lia|].
    apply Forall_cons in Hall as [-> _]. apply Forall_cons in Hfollow as [? _]. done. }
  assert (Hinv : ∀ st, invocations f (with_jobs (jobs s ++ [Job f st]) s)
                       = S (invocations f s)).
  { intros st. unfold invocations. cbn. rewrite filter_app, length_app. cbn.
    rewrite decide_True by done. cbn. lia. }
  assert (Hj0 : jobs s1 !! length (jobs s) = Some (Job f (Fetching (Some (key, ttl)))))
    by (rewrite Hj; by apply list_lookup_middle).
  assert (Hcall : ∀ c, length (calls s) ≤ c < length (calls s) + n →
                       calls s1 !! c = Some (Follows (length (jobs s)))).
  { intros c Hc. rewrite Hcalls, lookup_app_r by lia.
    destruct (lookup_lt_is_Some_2 new (c - length (calls s))) as [st Hst]; [lia|].
    by rewrite Hst, (Forall_lookup_1 _ _ _ _ Hfollow Hst). }
  split.
  { split; [done|]. unfold invocations. rewrite Hj. apply (Hinv (Fetching (Some (key, ttl)))). }
  unfold run. cbn [foldl].
  assert (Hnoop : ∀ (s' : CacheService V) o',
    jobs s' !! length (jobs s) = Some (Job f (Settled o')) →
    step s' (SetFinished (length (jobs s)) r) = s').
  { intros s' o' Hs'. cbn. by rewrite Hs'. }
  destruct o as [data|error].
  - destruct (set_issues s1 data) as [text|] eqn:Hissued.
    + erewrite fetch_stores by done.
      erewrite set_finished
        by (cbn; rewrite Hj, alter_app_r_alt, Nat.sub_diag by lia; by apply list_lookup_middle).
      cbn. rewrite Hj, !alter_app_r_alt, !Nat.sub_diag by (rewrite ?length_app; cbn; lia).
      cbn. split; [split; [done|apply (Hinv (Settled (Fulfilled data)))]|].
      split; [|split; [done|by rewrite lookup_delete_eq]].
      intros c Hc. eapply received_follows; cbn; [by apply Hcall|].
      by apply list_lookup_middle.
    + erewrite fetch_skips by done.
      erewrite Hnoop
        by (cbn; rewrite Hj, alter_app_r_alt, Nat.sub_diag by lia; by apply list_lookup_middle).
      cbn. rewrite Hj, !alter_app_r_alt, !Nat.sub_diag by lia.
      cbn. split; [split; [done|apply (Hinv (Settled (Fulfilled data)))]|].
      split; [|split; [done|by rewrite lookup_delete_eq]].
      intros c Hc. eapply received_follows; cbn; [by apply Hcall|].
      by apply list_lookup_middle.
  - erewrite fetch_rejected by done.
    erewrite Hnoop
      by (cbn; rewrite Hj, alter_app_r_alt, Nat.sub_diag by lia; by apply list_lookup_middle).
    cbn. rewrite Hj, !alter_app_r_alt, !Nat.sub_diag by lia.
    cbn. split; [split; [done|apply (Hinv (Settled (Rejected error)))]|].
    split; [|split; [done|by rewrite lookup_delete_eq]].
    intros c Hc. eapply received_follows; cbn; [by apply Hcall|].
    by apply list_lookup_middle.
Qed.

(** ** Statistics *)

Lemma step_stats s (e : event V) :
  stats_hits (step s e)
  = (stats_hits s + if bool_decide (lookup_of s e = Some true) then 1 else 0)%N
  ∧ stats_misses (step s e)
    = (stats_misses s + if bool_decide (lookup_of s e = Some false) then 1 else 0)%N.
Proof.
  assert (Hsame : ∀ s' : CacheService V,
    stats_hits s' = stats_hits s → stats_misses s' = stats_misses s →
    stats_hits s' = (stats_hits s + 0)%N ∧ stats_misses s' = (stats_misses s + 0)%N)
    by (intros ? -> ->; split; lia).
  destruct e as [key f ttl|c r| | | | | | | | | | | |]; cbn.
  2:{ destruct r, (calls s !! c) as [[key f ttl| |]|]; cbn; try by apply Hsame.
      unfold_cmd; cbn.
      destruct (truthy (cached s key)) as [text|]; cbn.
      - destruct (JSON_parse text); cbn;
          repeat case_bool_decide; simplify_eq; split; lia.
      - destruct (pendingRequests s !! key); cbn;
          repeat case_bool_decide; simplify_eq; split; lia. }
  all: apply Hsame; unfold_cmd; cbn; repeat (case_match; cbn in *; simplify_eq; cbn); done.
Qed.


Lemma run_stats s (es : list (event V)) :
  stats_hits (run s es) = (stats_hits s + count_lookups true s es)%N
  ∧ stats_misses (run s es) = (stats_misses s + count_lookups false s es)%N.
Proof.
  revert s. induction es as [|e es IH]; intros s; cbn [count_lookups].
  - cbn. split; lia.
  - rewrite run_cons. destruct (IH (step s e)) as [-> ->].
    destruct (step_stats s e) as [-> ->]. split; lia.
Qed.

(** In a process that started empty, every stored text decodes. *)
Lemma set_issues_Some s (value : V) text :
  set_issues s value = Some text →
  unavailable (redisClient s) = false ∧ JSON_stringify value = Some text
  ∧ (N.of_nat (String.length text) ≤ MAX_OBJECT_SIZE)%N.
Proof.
  unfold set_issues. destruct (unavailable _); [done|].
  destruct (JSON_stringify value) as [t|]; [|done].
  destruct (_ <? _)%N eqn:Hsize; [done|]. intros [= ->].
  by apply N.ltb_ge in Hsize.
Qed.

Lemma serialized_snoc (js : list (job V)) f reg :
  serialized js → serialized (js ++ [Job f (Fetching reg)]).
Proof.
  intros Hs j f' key ttl data text Hj.
  apply lookup_snoc_Some in Hj as [[_ Hj]|[_ ?]]; [by eapply Hs|done].
Qed.

Lemma serialized_alter (js : list (job V)) st i :
  serialized js →
  (∀ key ttl data text, st = Storing key ttl data text → JSON_stringify data = Some text) →
  serialized (alter (λ jb, Job (invoked jb) st) i js).
Proof.
  intros Hs Hst j f key ttl data text Hj.
  destruct (decide (j = i)) as [->|Hne].
  - rewrite list_lookup_alter_eq in Hj. destruct (js !! i); [|done].
    injection Hj as _ Hj. by eapply Hst.
  - rewrite list_lookup_alter_ne in Hj by done. by eapply Hs.
Qed.

Lemma step_serialized s (e : event V) :
  serialized (jobs s) → serialized (jobs (step s e)).
Proof.
  intros Hs.
  destruct e as [key f ttl|c r|j o|j r| | | | | | | | | |];
    try (by edestruct (mutators_touch_db_only s) as [d ->]); try done.
  - destruct (unavailable (redisClient s)) eqn:Hav.
    + rewrite get_begin_unavailable by done. by apply serialized_snoc.
    + by rewrite get_begin_available.
  - destruct (calls s !! c) as [[key f ttl|v|j]|] eqn:Hcall;
      try (cbn; by rewrite Hcall).
    destruct r; [|erewrite resume_error by done; by apply serialized_snoc].
    destruct (truthy (cached s key)) as [text|] eqn:Ht.
    + destruct (JSON_parse text) as [v|] eqn:Hp.
      * by erewrite resume_hit.
      * erewrite resume_undecodable by done. by apply serialized_snoc.
    + destruct (pendingRequests s !! key) as [j|] eqn:Hreg.
      * by erewrite resume_miss_join.
      * erewrite resume_miss_fetch by done. by apply serialized_snoc.
  - destruct (jobs s !! j) as [[f [[[key ttl]|]|key ttl data text|o']]|] eqn:Hj;
      try (cbn; by rewrite Hj).
    + destruct o as [data|error].
      * destruct (set_issues s data) as [text|] eqn:Hissued.
        -- erewrite fetch_stores by done. apply serialized_alter; [done|].
           intros ???? [= _ _ <- <-]. by apply set_issues_Some in Hissued as (_ & ? & _).
        -- erewrite fetch_skips by done. by apply serialized_alter.
      * erewrite fetch_rejected by done. by apply serialized_alter.
    + erewrite fetch_direct by done. by apply serialized_alter.
  - destruct (jobs s !! j) as [[f [[[key ttl]|]|key ttl data text|o']]|] eqn:Hj;
      try (cbn; by rewrite Hj).
    erewrite set_finished by done. by apply serialized_alter.
Qed.

Lemma step_db s (e : event V) :
  serialized (jobs s) →
  db (step s e) = db s
  ∨ (∃ key ttl text r (value : V),
       JSON_stringify value = Some text ∧ db (step s e) = setex_effect s key ttl text r)
  ∨ (∃ keys, db (step s e) = redis_del keys (db s))
  ∨ db (step s e) = ∅.
Proof.
  intros Hs.
  destruct e as [key f ttl|c r|j o|j r|key value ttl r|key r|pattern r1 r2|key r|r| | | | |];
    try by left.
  - left. destruct (unavailable (redisClient s)) eqn:Hav.
    + by rewrite get_begin_unavailable.
    + by rewrite get_begin_available.
  - left. destruct (calls s !! c) as [[key f ttl|v|j]|] eqn:Hcall;
      try (cbn; by rewrite Hcall).
    destruct r; [|by erewrite resume_error].
    destruct (truthy (cached s key)) as [text|] eqn:Ht.
    + destruct (JSON_parse text) as [v|] eqn:Hp.
      * by erewrite resume_hit.
      * by erewrite resume_undecodable.
    + destruct (pendingRequests s !! key) as [j|] eqn:Hreg.
      * by erewrite resume_miss_join.
      * by erewrite resume_miss_fetch.
  - left. destruct (jobs s !! j) as [[f [[[key ttl]|]|key ttl data text|o']]|] eqn:Hj;
      try (cbn; by rewrite Hj).
    destruct o as [data|error].
    + destruct (set_issues s data) as [text|] eqn:Hissued.
      * by erewrite fetch_stores.
      * by erewrite fetch_skips.
    + by erewrite fetch_rejected.
  - destruct (jobs s !! j) as [[f [[[key ttl]|]|key ttl data text|o']]|] eqn:Hj;
      try (left; cbn; by rewrite Hj).
    right; left. exists key, ttl, text, r, data. split; [by eapply Hs|].
    by erewrite set_finished.
  - cbn. unfold exec. rewrite cache_set_effect, set_effect_issued. cbn.
    destruct (set_issues s value) as [text|] eqn:Hissued; [|by left].
    right; left. exists key, ttl, text, r, value.
    by apply set_issues_Some in Hissued as (_ & ? & _).
  - cbn. unfold_cmd. cbn. destruct (unavailable _); [by left|].
    destruct r; cbn; [|by left]. right; right; left. by exists [key].
  - cbn. unfold_cmd. cbn. destruct (unavailable _); [by left|].
    destruct r1; cbn; [|by left]. destruct (length _); cbn; [by left|].
    destruct r2; cbn; [|by left]. right; right; left. by eexists.
  - cbn. unfold_cmd. cbn. destruct (unavailable _); [by left|].
    destruct r; cbn; [|by left]. right; right; left. by exists [key].
  - cbn. unfold_cmd. cbn. destruct (unavailable _); [by left|].
    destruct r; cbn; [|by left]. by right; right; right.
Qed.

Lemma step_decodable s (e : event V) :
  serialized (jobs s) → decodable (db s) → decodable (db (step s e)).
Proof.
  intros Hs Hd.
  destruct (step_db s e Hs)
    as [->|[(key & ttl & text & r & value & Hser & ->)|[(keys & ->)| ->]]]; [done| | |].
  - destruct r; [|done].
    intros k t ex. cbn. unfold redis_setex. destruct (decide (k = key)) as [->|Hne].
    + rewrite lookup_insert_eq. intros [= <- <-]. by exists value.
    + rewrite lookup_insert_ne by done. apply Hd.
  - intros k t ex. rewrite lookup_redis_del. destruct (decide _); [done|]. apply Hd.
  - intros k t ex. by rewrite lookup_empty.
Qed.

Lemma run_decodable s (es : list (event V)) :
  serialized (jobs s) → decodable (db s) → decodable (db (run s es)).
Proof.
  revert s. induction es as [|e es IH]; intros s Hs Hd; [done|].
  rewrite run_cons. apply IH; [by apply step_serialized|by apply step_decodable].
Qed.

Lemma truthy_decodes s key text :
  decodable (db s) → truthy (cached s key) = Some text →
  ∃ value : V, JSON_parse text = Some value.
Proof.
  intros Hd. unfold cached, redis_get.
  destruct (db s !! key) as [[t ex]|] eqn:Hk; [|done].
  destruct (_ <? _)%N; [|done]. cbn. destruct (bool_decide _); [done|].
  intros [= ->]. destruct (Hd _ _ _ Hk) as [value Hv].
  exists value. by apply JSON_parse_stringify.
Qed.

(** C9, as the code has it. After any run from a fresh process in which M
    lookups found a stored value (cache hits) and K found none (cache
    misses), [getStats] reports [hits = M], [misses = K] and, as [hitRate],
    the text of the percentage [M / (M + K) * 100], computed in double
    precision and written with two decimals and a percent sign ([0.00%] when
    [M + K = 0]); it changes neither the counters nor the registry nor
    anything else. A hit is served from the cache without a fetch; a miss
    starts exactly one registered origin fetch unless it joins the one in
    flight for its key. *)
Theorem stats_accuracy (connected : bool) (es : list (event V)) (e : event V) :
  let s := run (start connected) es in
  let M := count_lookups true (start connected) es in
  let K := count_lookups false (start connected) es in
  (getStats s).1
  = inr {| hits := M; misses := K;
           hitRate :=
             ((if (0 <? M + K)%N
               then toFixed2 (number_of_N M / number_of_N (M + K) * 100)%float
               else "0.00") ++ "%")%string;
           pendingRequests_size := size (pendingRequests s) |}
  ∧ (getStats s).2 = s
  ∧ step s GetStatsCalled = s
  ∧ (lookup_of s e = Some true →
     jobs (step s e) = jobs s
     ∧ ∃ c value, e = ReadReplied c OK ∧ calls (step s e) !! c = Some (Returned value))
  ∧ (lookup_of s e = Some false →
     ∃ c key f ttl,
       e = ReadReplied c OK ∧ calls s !! c = Some (AwaitingRead key f ttl)
       ∧ ((∃ j, pendingRequests s !! key = Some j ∧ jobs (step s e) = jobs s
                ∧ calls (step s e) !! c = Some (Follows j))
          ∨ (pendingRequests s !! key = None
             ∧ jobs (step s e) = jobs s ++ [Job f (Fetching (Some (key, ttl)))]
             ∧ calls (step s e) !! c = Some (Follows (length (jobs s)))))).
Proof.
  cbn zeta.
  destruct (run_stats (start connected) es) as [Hh Hm]. cbn in Hh, Hm.
  split.
  { unfold getStats, bind, read, ret. cbn. rewrite Hh, Hm.
    by destruct (0 <? _)%N. }
  split; [done|]. split; [done|].
  clear Hh Hm. set (s := run (start connected) es).
  assert (Hd : decodable (db s)).
  { apply run_decodable; [by intros j f key ttl data text|].
    intros k t ex. cbn. by rewrite lookup_empty. }
  split.
  - destruct e as [|c r| | | | | | | | | | | |]; try done. cbn [lookup_of].
    destruct r; [|done].
    destruct (calls s !! c) as [[key f ttl| |]|] eqn:Hcall; try done.
    intros [= Hfound]. apply bool_decide_eq_true in Hfound as [text Ht].
    destruct (truthy_decodes s key text Hd Ht) as [value Hp].
    erewrite resume_hit by done. cbn. split; [done|].
    exists c, value. split; [done|]. apply list_lookup_insert_eq.
    by eapply lookup_lt_Some.
  - destruct e as [|c r| | | | | | | | | | | |]; try done. cbn [lookup_of].
    destruct r; [|done].
    destruct (calls s !! c) as [[key f ttl| |]|] eqn:Hcall; try done.
    intros [= Hfound]. apply bool_decide_eq_false in Hfound.
    assert (Ht : truthy (cached s key) = None).
    { destruct (truthy _); [|done]. destruct Hfound. by eexists. }
    assert (Hlt : c < length (calls s)) by by eapply lookup_lt_Some.
    exists c, key, f, ttl. split; [done|]. split; [done|].
    destruct (pendingRequests s !! key) as [j|] eqn:Hreg.
    + left. exists j. erewrite resume_miss_join by done. cbn.
      split; [done|]. split; [done|]. by apply list_lookup_insert_eq.
    + right. erewrite resume_miss_fetch by done. cbn.
      split; [done|]. split; [done|]. by apply list_lookup_insert_eq.
Qed.

End properties.

(** * The properties on concrete runs *)

Section examples.
Local Open Scope N_scope.

(** Three callers at once, as [Promise.all] makes them; the fetch succeeds. *)
Lemma stampede_protection_witness :
  let es := [Get "test:race" "slowFetch" 3600; Get "test:race" "slowFetch" 3600;
             Get "test:race" "slowFetch" 3600;
             ReadReplied 0 OK; ReadReplied 1 OK; ReadReplied 2 OK] in
  let s1 := run (start true) es in
  let s2 := run s1 [FetchSettled 0%nat (Fulfilled (JString "data")); SetFinished 0%nat OK] in
  (jobs s1 = [Job "slowFetch" (Fetching (Some ("test:race", 3600)))]
   ∧ invocations "slowFetch" s1 = 1%nat)
  ∧ (jobs s2 = [Job "slowFetch" (Settled (Fulfilled (JString "data")))]
     ∧ invocations "slowFetch" s2 = 1%nat)
  ∧ (∀ c, (0 ≤ c < 0 + 3)%nat → received s2 c = Some (Fulfilled (JString "data")))
  ∧ (∀ error, Fulfilled (JString "data") = Rejected error → db s2 = ∅)
  ∧ pendingRequests s2 !! "test:race" = None.
Proof.
  apply (stampede_protection (start true) "test:race" "slowFetch" 3600 _ 3%nat
           (Fulfilled (JString "data")) OK).
  - reflexivity.
  - reflexivity.
  - reflexivity.
  - repeat (apply Forall_cons; split;
              [first [left; reflexivity
                     |right; eexists; split; [|reflexivity]; cbn; lia]|]).
    apply Forall_nil_2.
  - reflexivity.
  - lia.
  - intros c st. change (calls (run _ _)) with [Follows 0%nat; Follows 0%nat; Follows (V:=json) 0%nat].
    destruct c as [|[|[|c]]]; cbn; intros [= <-]; reflexivity || discriminate.
Defined.

(** The fetch has been fulfilled and the job is storing the value: the entry
    is still in the registry; it goes when [set] has finished. *)
Lemma registry_entry_outlives_fetch :
  let s := run (start true)
             [Get "k" "fetch" 60; ReadReplied 0 OK;
              FetchSettled 0%nat (Fulfilled JNull)] in
  jobs s !! 0%nat = Some (Job "fetch" (Storing "k" 60 JNull "null"))
  ∧ pendingRequests s !! "k" = Some 0%nat
  ∧ pendingRequests (step s (SetFinished 0%nat OK)) !! "k" = None.
Proof. vm_compute. repeat split; reflexivity. Qed.

Lemma read_through_witness :
  let s1 := run (start true)
              [Get "event:1" "fetch" 1800; ReadReplied 0 OK;
               FetchSettled 0%nat (Fulfilled (JString "Test Event"));
               SetFinished 0%nat OK] in
  let s2 := run s1 [Tick 10; Get "event:1" "fetch2" 1800; ReadReplied 1 OK] in
  (invocations "fetch" s1 = 1%nat
   ∧ received s1 0%nat = Some (Fulfilled (JString "Test Event"))
   ∧ cached s1 "event:1" = Some (String dquote (quote_body "Test Event")))
  ∧ received s2 1%nat = Some (Fulfilled (JString "Test Event"))
  ∧ jobs s2 = jobs s1
  ∧ invocations "fetch2" s2 = invocations "fetch2" s1.
Proof.
  apply (read_through (start true) "event:1" "fetch" "fetch2" 1800 1800
           (JString "Test Event") _ 10); try reflexivity.
  vm_compute. discriminate.
Defined.

Lemma fail_open_witness :
  let s := start false in
  let s1 := step s (Get "event:1" "fetch" 1800) in
  let s2 := step s1 (FetchSettled 0%nat (Rejected (OriginError "database down"))) in
  ((get_begin "event:1" "fetch" 1800 s).1 = inr tt
   ∧ calls s1 !! 0%nat = Some (Follows 0%nat)
   ∧ jobs s1 !! 0%nat = Some (Job "fetch" (Fetching None))
   ∧ received s2 0%nat = Some (Rejected (OriginError "database down"))
   ∧ db s1 = db s ∧ db s2 = db s)
  ∧ cache_set "event:1" (JString "Test Event") 1800 OK s = (inr tt, s)
  ∧ cache_delete "event:1" OK s = (inr tt, s)
  ∧ deletePattern "events:list*" OK OK s = (inr tt, s)
  ∧ flushAll OK s = (inr tt, s).
Proof.
  apply (fail_open (start false) "event:1" "fetch" 1800
           (Rejected (OriginError "database down")) (JString "Test Event")
           "events:list*" OK OK).
  left. reflexivity.
Defined.

(** Two concurrent calls on the undecodable entry, against the same two
    calls on a true miss: the former are counted as hits, stay out of the
    registry and fetch twice; the latter are counted as misses and share one
    registered fetch. *)
Lemma undecodable_entry_is_not_a_miss :
  let es := [Get "k" "fetch" 60; Get "k" "fetch" 60;
             ReadReplied 0 OK; ReadReplied 1 OK] in
  let s := run corrupted es in
  let s' := run (start true) es in
  (cached corrupted "k" = Some "{oops" ∧ JSON_parse "{oops" = @None json)
  ∧ (pendingRequests s !! "k" = None ∧ invocations "fetch" s = 2%nat
     ∧ stats_hits s = 2 ∧ stats_misses s = 0)
  ∧ (pendingRequests s' !! "k" = Some 0%nat ∧ invocations "fetch" s' = 1%nat
     ∧ stats_hits s' = 0 ∧ stats_misses s' = 2).
Proof. vm_compute. repeat split; reflexivity. Qed.

Lemma undecodable_entry_falls_back_witness :
  let s := step corrupted (Get "k" "fetch" 60) in
  let s1 := step s (ReadReplied 0 OK) in
  let s2 := step s1 (FetchSettled 0%nat (Fulfilled (JString "fresh"))) in
  (jobs s1 = jobs s ++ [Job "fetch" (Fetching None)]
   ∧ calls s1 !! 0%nat = Some (Follows 0%nat)
   ∧ pendingRequests s1 = pendingRequests s
   ∧ db s1 = db s)
  ∧ received s2 0%nat = Some (Fulfilled (JString "fresh"))
  ∧ pendingRequests s2 = pendingRequests s
  ∧ db s2 = db s.
Proof.
  apply (undecodable_entry_falls_back (step corrupted (Get "k" "fetch" 60)) 0%nat
           "k" "fetch" 60 "{oops" (Fulfilled (JString "fresh")));
    vm_compute; reflexivity.
Defined.

(** A key stored before the oversized [set] keeps its old entry, and the
    next [get] is served from it: the fetcher is not invoked. *)
Lemma oversized_set_keeps_stale_entry :
  let s := run (start true) [SetCalled "k" (JString "old") 60 OK] in
  let s1 := step s (SetCalled "k" largeObject 60 OK) in
  let s2 := run s1 [Get "k" "fetch" 60; ReadReplied 0 OK] in
  (∃ text, JSON_stringify largeObject = Some text
           ∧ MAX_OBJECT_SIZE < N.of_nat (String.length text))
  ∧ cached s1 "k" = Some (String dquote (quote_body "old"))
  ∧ received s2 0%nat = Some (Fulfilled (JString "old"))
  ∧ invocations "fetch" s2 = 0%nat.
Proof.
  split; [eexists; split; [reflexivity|vm_compute; reflexivity]|].
  vm_compute. repeat split; reflexivity.
Qed.

Lemma size_limit_witness :
  let s := start true in
  let text := String dquote (quote_body (repeat_x (1024 * 1024 + 100))) in
  let s1 := step s (SetCalled "test:size" largeObject 3600 OK) in
  (cache_set "test:size" largeObject 3600 OK s).1 = inr tt
  ∧ (MAX_OBJECT_SIZE < N.of_nat (String.length text) →
     s1 = s
     ∧ ∀ f ttl',
         unavailable (redisClient s) = false →
         cached s "test:size" = None →
         pendingRequests s !! "test:size" = None →
         let s2 := run s1 [Get "test:size" f ttl'; ReadReplied (length (calls s1)) OK] in
         jobs s2 = jobs s1 ++ [Job f (Fetching (Some ("test:size", ttl')))]
         ∧ invocations f s2 = S (invocations f s1))
  ∧ (N.of_nat (String.length text) ≤ MAX_OBJECT_SIZE →
     unavailable (redisClient s) = false → OK = OK →
     db s1 = <[ "test:size" := (text, now s + 3600) ]> (db s)
     ∧ ∀ elapsed, elapsed < 3600 →
         cached (step s1 (Tick elapsed)) "test:size" = Some text).
Proof.
  apply (size_limit (start true) "test:size" largeObject 3600 OK). reflexivity.
Defined.

Lemma pattern_invalidation_witness :
  let s1 := step three_keys (DeletePatternCalled "a:*" OK OK) in
  let s2 k := run s1 [Get k "fetch" 60; ReadReplied 0 OK] in
  (cached s1 "a:1" = None ∧ cached s1 "a:2" = None
   ∧ cached s1 "b:1" = cached three_keys "b:1")
  ∧ (jobs (s2 "a:1") = [Job "fetch" (Fetching (Some ("a:1", 60)))]
     ∧ jobs (s2 "a:2") = [Job "fetch" (Fetching (Some ("a:2", 60)))])
  ∧ (received (s2 "b:1") 0%nat = Some (Fulfilled (JString "three"))
     ∧ jobs (s2 "b:1") = []).
Proof.
  assert (Hup : unavailable (redisClient three_keys) = false)
    by (vm_compute; reflexivity).
  destruct (pattern_invalidation three_keys "a:*" Hup) as (Hkeys & Hgone & Hkept).
  assert (Hreg : ∀ k, pendingRequests three_keys !! k = None)
    by (intros k; apply lookup_empty).
  assert (Hlen : length (calls (step three_keys (DeletePatternCalled "a:*" OK OK))) = 0%nat)
    by (vm_compute; reflexivity).
  assert (Hjobs : jobs (step three_keys (DeletePatternCalled "a:*" OK OK)) = [])
    by (vm_compute; reflexivity).
  rewrite Hlen, Hjobs in Hgone, Hkept.
  split; [|split].
  - split; [|split].
    + rewrite (Hkeys "a:1"). vm_compute. reflexivity.
    + rewrite (Hkeys "a:2"). vm_compute. reflexivity.
    + rewrite (Hkeys "b:1"). vm_compute. reflexivity.
  - split.
    + apply (Hgone "a:1" "fetch" 60); [vm_compute; reflexivity|apply Hreg].
    + apply (Hgone "a:2" "fetch" 60); [vm_compute; reflexivity|apply Hreg].
  - apply (Hkept "b:1" "fetch" 60 (String dquote (quote_body "three"))
             (JString "three")); vm_compute; reflexivity.
Defined.

Lemma null_is_cached_witness :
  let s1 := run (start true)
              [Get "participant:7" "fetch" 600; ReadReplied 0 OK;
               FetchSettled 0%nat (Fulfilled JNull); SetFinished 0%nat OK] in
  let s2 := run s1 [Tick 599; Get "participant:7" "fetch2" 600; ReadReplied 1 OK] in
  (received s1 0%nat = Some (Fulfilled JNull)
   ∧ db s1 !! "participant:7" = Some ("null", 0 + 600))
  ∧ received s2 1%nat = Some (Fulfilled JNull)
  ∧ jobs s2 = jobs s1
  ∧ invocations "fetch2" s2 = invocations "fetch2" s1.
Proof.
  assert (Hup : unavailable (redisClient (start (V:=json) true)) = false)
    by (vm_compute; reflexivity).
  assert (Hmiss : truthy (cached (start (V:=json) true) "participant:7") = None)
    by (vm_compute; reflexivity).
  assert (Hnone : pendingRequests (start (V:=json) true) !! "participant:7" = None)
    by (vm_compute; reflexivity).
  assert (Hlt : 599 < 600) by (vm_compute; reflexivity).
  pose proof (null_is_cached (start true) "participant:7" "fetch" "fetch2"
                600 600 599 Hup Hmiss Hnone Hlt) as H.
  vm_compute in H. vm_compute. exact H.
Defined.

Lemma get_fallback_frame_witness :
  let s := start false in
  let s1 := step s (Get "k" "fetch" 60) in
  let s1' := step s1 (FetchSettled 0%nat (Fulfilled JNull)) in
  let s2 := step s1 (Get "k" "fetch2" 60) in
  (stats_hits s1 = 0 ∧ stats_misses s1 = 0 ∧ pendingRequests s1 = ∅
   ∧ jobs s1 = [Job "fetch" (Fetching None)]
   ∧ invocations "fetch" s1 = 1%nat)
  ∧ (stats_hits s1' = 0 ∧ stats_misses s1' = 0 ∧ pendingRequests s1' = ∅
     ∧ jobs s1' = [Job "fetch" (Settled (Fulfilled JNull))])
  ∧ (stats_hits s2 = 0 ∧ stats_misses s2 = 0 ∧ pendingRequests s2 = ∅
     ∧ jobs s2 = [Job "fetch" (Fetching None); Job "fetch2" (Fetching None)]
     ∧ calls s2 = [Follows 0%nat; Follows 1%nat]).
Proof.
  apply (get_fallback_frame (start false) "k" "fetch" "fetch2" 60 60 (Fulfilled JNull)).
  right. reflexivity.
Defined.

(** Two lookups served from the cache and one miss: [hitRate] is the text
    [66.67%], a percentage rounded to two decimals and not the ratio 2/3
    (6667/10000 is not 2/3); with no lookup at all it is [0.00%]. *)
Lemma hitRate_is_a_rounded_percentage :
  let s := run (start true)
             [Get "k" "fetch" 60; ReadReplied 0 OK;
              FetchSettled 0%nat (Fulfilled (JBool true)); SetFinished 0%nat OK;
              Get "k" "fetch" 60; ReadReplied 1 OK;
              Get "k" "fetch" 60; ReadReplied 2 OK] in
  (count_lookups true (start true)
     [Get "k" "fetch" 60; ReadReplied 0 OK;
      FetchSettled 0%nat (Fulfilled (JBool true)); SetFinished 0%nat OK;
      Get "k" "fetch" 60; ReadReplied 1 OK;
      Get "k" "fetch" 60; ReadReplied 2 OK] = 2
   ∧ (getStats s).1
     = inr {| hits := 2; misses := 1; hitRate := "66.67%"; pendingRequests_size := 0 |}
   ∧ 6667 * (2 + 1) ≠ 10000 * 2)
  ∧ ((getStats (start (V:=json) true)).1
     = inr {| hits := 0; misses := 0; hitRate := "0.00%"; pendingRequests_size := 0 |}
     ∧ "0.00%" ≠ "0%").
Proof. vm_compute. repeat split; (reflexivity || discriminate). Qed.

(** The edge of the burst of C1: a call whose lookup is answered only after
    the fetch has failed finds neither a stored value nor an entry, and
    fetches on its own. *)
Example late_lookup_fetches_again :
  let s := run (start true)
             [Get "k" "fetch" 60; Get "k" "fetch" 60; ReadReplied 0 OK;
              FetchSettled 0%nat (Rejected (OriginError "timeout"));
              ReadReplied 1 OK] in
  received s 0%nat = Some (@Rejected json (OriginError "timeout"))
  ∧ calls s !! 1%nat = Some (Follows 1%nat)
  ∧ invocations "fetch" s = 2%nat.
Proof. vm_compute. repeat split; reflexivity. Qed.

Example glob_examples :
  glob_match "a:*" "a:1" = true ∧ glob_match "a:*" "b:1" = false
  ∧ glob_match "events:list*" "events:list:admin:7" = true
  ∧ glob_match "leaderboard:*" "leaderboard" = false
  ∧ glob_match "h[a-c]l?o\*" "hblxo*" = true
  ∧ glob_match "h[^a-c]llo" "hbllo" = false.
Proof. vm_compute. repeat split; reflexivity. Qed.

End examples.

(** * More of the service, its client and its callers *)

Section more.
Context {V : Type} `{!JSON V}.
Implicit Types (s : CacheService V) (key : string) (f : fetcher) (ttl : N) (o : settled V).

Lemma delete_effect s key :
  unavailable (redisClient s) = false →
  step s (DeleteCalled key OK) = with_db (delete key (db s)) s.
Proof. intros Hup. cbn. unfold_cmd. cbn. by rewrite Hup. Qed.

Lemma flushAll_effect s :
  unavailable (redisClient s) = false →
  step s (FlushAllCalled OK) = with_db ∅ s.
Proof. intros Hup. cbn. unfold_cmd. cbn. by rewrite Hup. Qed.

Lemma invocations_snoc s f st (s' : CacheService V) :
  jobs s' = jobs s ++ [Job f st] → invocations f s' = S (invocations f s).
Proof.
  intros Hj. unfold invocations. rewrite Hj, filter_app, length_app. cbn.
  rewrite decide_True by done. cbn. lia.
Qed.

(** X1. With the backend available, [delete(key)] and its alias
    [invalidate(key)] do the same: the key is gone, every other key answers
    as before, and the next [get] on the key (nothing being in flight)
    invokes its fetcher. *)
Theorem delete_then_get s key f ttl :
  unavailable (redisClient s) = false →
  pendingRequests s !! key = None →
  let s1 := step s (DeleteCalled key OK) in
  let s2 := run s1 [Get key f ttl; ReadReplied (length (calls s1)) OK] in
  step s (InvalidateCalled key OK) = s1
  ∧ cached s1 key = None
  ∧ (∀ key', key' ≠ key → cached s1 key' = cached s key')
  ∧ jobs s2 = jobs s1 ++ [Job f (Fetching (Some (key, ttl)))]
  ∧ invocations f s2 = S (invocations f s1).
Proof.
  intros Hup Hnone. cbn zeta. split; [done|].
  rewrite delete_effect by done.
  assert (Hgone : cached (with_db (delete key (db s)) s) key = None).
  { unfold cached, redis_get. cbn. by rewrite lookup_delete_eq. }
  split; [done|]. split.
  { intros key' Hne. unfold cached, redis_get. cbn. by rewrite lookup_delete_ne. }
  rewrite get_fetches by (try done; by rewrite Hgone).
  split; [done|]. by eapply invocations_snoc.
Qed.

(** X2. With the backend available, [flushAll()] empties the cache and
    touches nothing else: no key is stored any more, the counters and the
    registry are as before, and a [get] on any key with nothing in flight
    invokes its fetcher. *)
Theorem flushAll_then_get s key f ttl :
  unavailable (redisClient s) = false →
  pendingRequests s !! key = None →
  let s1 := step s (FlushAllCalled OK) in
  let s2 := run s1 [Get key f ttl; ReadReplied (length (calls s1)) OK] in
  (∀ key', cached s1 key' = None)
  ∧ (stats_hits s1 = stats_hits s ∧ stats_misses s1 = stats_misses s
     ∧ pendingRequests s1 = pendingRequests s ∧ jobs s1 = jobs s)
  ∧ jobs s2 = jobs s1 ++ [Job f (Fetching (Some (key, ttl)))]
  ∧ invocations f s2 = S (invocations f s1).
Proof.
  intros Hup Hnone. cbn zeta. rewrite flushAll_effect by done.
  assert (Hgone : ∀ key', cached (with_db ∅ s) key' = None).
  { intros key'. unfold cached, redis_get. cbn. by rewrite lookup_empty. }
  split; [done|]. split; [done|].
  rewrite get_fetches by (try done; by rewrite Hgone).
  split; [done|]. by eapply invocations_snoc.
Qed.

Lemma set_stores s key (value : V) text ttl :
  unavailable (redisClient s) = false →
  JSON_stringify value = Some text →
  (N.of_nat (String.length text) ≤ MAX_OBJECT_SIZE)%N →
  step s (SetCalled key value ttl OK)
  = with_db (<[key := (text, (now s + ttl)%N)]> (db s)) s.
Proof.
  intros Hup Hser Hfit. cbn. unfold exec. rewrite cache_set_effect. cbn.
  unfold set_effect. by rewrite Hup, Hser, (proj2 (N.ltb_ge _ _)).
Qed.

(** X3. A value stored by [set(key, value, ttl)], whatever the key held
    before, is what a [get] on the key receives for the next [ttl] seconds:
    the call counts one hit, invokes nothing and leaves the backend as it
    is. *)
Theorem set_then_get s key (value : V) text ttl f ttl' elapsed :
  unavailable (redisClient s) = false →
  JSON_stringify value = Some text →
  (N.of_nat (String.length text) ≤ MAX_OBJECT_SIZE)%N →
  (elapsed < ttl)%N →
  let c := length (calls s) in
  let s1 := run s [SetCalled key value ttl OK; Tick elapsed] in
  let s2 := run s1 [Get key f ttl'; ReadReplied c OK] in
  received s2 c = Some (Fulfilled value)
  ∧ jobs s2 = jobs s
  ∧ stats_hits s2 = (stats_hits s + 1)%N ∧ stats_misses s2 = stats_misses s
  ∧ db s2 = db s1.
Proof.
  intros Hup Hser Hfit Hlt. cbn zeta.
  set (s1 := run s [SetCalled key value ttl OK; Tick elapsed]).
  assert (Hs1 : s1 = with_now (now s + elapsed)
                       (with_db (<[key := (text, (now s + ttl)%N)]> (db s)) s)).
  { unfold s1, run. cbn [foldl]. by rewrite (set_stores s key value text ttl). }
  clearbody s1.
  assert (Hc : cached s1 key = Some text).
  { rewrite Hs1. unfold cached, redis_get. cbn. rewrite lookup_insert_eq.
    by rewrite (proj2 (N.ltb_lt _ _)) by lia. }
  destruct (cached_truthy s1 key text value Hc Hser) as [Ht Hp].
  assert (Hlen : length (calls s) = length (calls s1)) by by rewrite Hs1.
  assert (Hup1 : unavailable (redisClient s1) = false) by by rewrite Hs1.
  rewrite Hlen, (get_served s1 key f ttl' text value) by done.
  split; [apply received_returned; by apply list_lookup_middle|].
  cbn. by rewrite Hs1.
Qed.

(** X4. Expiry is fixed when the value is written: a hit in between does
    not prolong it. A value stored with [ttl], read once within the [ttl] and
    read again when [ttl] seconds or more have passed since the write: the
    first read is served from the cache, the second is a miss and invokes
    its fetcher. *)
Theorem hit_does_not_prolong s key (value : V) text ttl f1 f2 ttl1 ttl2 e1 e2 :
  unavailable (redisClient s) = false →
  pendingRequests s !! key = None →
  JSON_stringify value = Some text →
  (N.of_nat (String.length text) ≤ MAX_OBJECT_SIZE)%N →
  (e1 < ttl)%N → (ttl ≤ e1 + e2)%N →
  let c := length (calls s) in
  let s1 := run s [SetCalled key value ttl OK; Tick e1;
                   Get key f1 ttl1; ReadReplied c OK] in
  let s2 := run s1 [Tick e2; Get key f2 ttl2; ReadReplied (S c) OK] in
  received s1 c = Some (Fulfilled value)
  ∧ jobs s1 = jobs s
  ∧ cached (step s1 (Tick e2)) key = None
  ∧ jobs s2 = jobs s ++ [Job f2 (Fetching (Some (key, ttl2)))]
  ∧ invocations f2 s2 = S (invocations f2 s).
Proof.
  intros Hup Hnone Hser Hfit Hlt Hge. cbn zeta.
  rewrite (run_app s [SetCalled key value ttl OK; Tick e1]
             [Get key f1 ttl1; ReadReplied (length (calls s)) OK]).
  set (s0 := run s [SetCalled key value ttl OK; Tick e1]).
  assert (Hs0 : s0 = with_now (now s + e1)
                       (with_db (<[key := (text, (now s + ttl)%N)]> (db s)) s)).
  { unfold s0, run. cbn [foldl]. by rewrite (set_stores s key value text ttl). }
  clearbody s0.
  assert (Hc0 : cached s0 key = Some text).
  { rewrite Hs0. unfold cached, redis_get. cbn. rewrite lookup_insert_eq.
    by rewrite (proj2 (N.ltb_lt _ _)) by lia. }
  destruct (cached_truthy s0 key text value Hc0 Hser) as [Ht Hp].
  assert (Hup0 : unavailable (redisClient s0) = false) by by rewrite Hs0.
  assert (Hlen0 : length (calls s) = length (calls s0)) by by rewrite Hs0.
  rewrite Hlen0, (get_served s0 key f1 ttl1 text value) by done.
  set (s1 := with_calls (calls s0 ++ [Returned value])
               (with_stats (stats_hits s0 + 1) (stats_misses s0) s0)).
  split; [apply received_returned; by apply list_lookup_middle|].
  split; [cbn; by rewrite Hs0|].
  assert (Hexp : cached (step s1 (Tick e2)) key = None).
  { unfold cached, redis_get, s1. cbn. rewrite Hs0. cbn. rewrite lookup_insert_eq.
    by rewrite (proj2 (N.ltb_ge _ _)) by lia. }
  split; [done|].
  rewrite run_cons.
  assert (Hlen : S (length (calls s0)) = length (calls (step s1 (Tick e2)))).
  { unfold s1. cbn. rewrite length_app. cbn. lia. }
  rewrite Hlen, get_fetches;
    [| unfold s1; cbn; by rewrite Hs0 | by rewrite Hexp | unfold s1; cbn; by rewrite Hs0].
  assert (Hj : jobs (step s1 (Tick e2)) = jobs s) by (unfold s1; cbn; by rewrite Hs0).
  cbn [jobs with_calls with_pendingRequests with_jobs]. rewrite Hj.
  split; [done|]. by eapply invocations_snoc.
Qed.

(** X5. When the awaited [client.get(key)] is rejected, [get] falls back to
    the fetcher: it is invoked directly, the caller receives what it settles
    to, and neither the counters nor the registry nor the backend change. *)
Theorem read_error_falls_back s c key f ttl o :
  calls s !! c = Some (AwaitingRead key f ttl) →
  let j := length (jobs s) in
  let s1 := step s (ReadReplied c ERR) in
  let s2 := step s1 (FetchSettled j o) in
  (jobs s1 = jobs s ++ [Job f (Fetching None)]
   ∧ stats_hits s1 = stats_hits s ∧ stats_misses s1 = stats_misses s
   ∧ pendingRequests s1 = pendingRequests s ∧ db s1 = db s)
  ∧ received s2 c = Some o
  ∧ (stats_hits s2 = stats_hits s ∧ stats_misses s2 = stats_misses s
     ∧ pendingRequests s2 = pendingRequests s ∧ db s2 = db s).
Proof.
  intros Hc. cbn zeta.
  assert (Hlt : c < length (calls s)) by by eapply lookup_lt_Some.
  erewrite resume_error by done. split; [done|].
  erewrite fetch_direct by (cbn; by apply list_lookup_middle). cbn.
  split; [|done].
  eapply received_follows; cbn.
  - by rewrite list_lookup_insert_eq.
  - rewrite alter_app_r_alt, Nat.sub_diag by lia. by apply list_lookup_middle.
Qed.

(** X6. A rejected backend command inside [set], [delete], [deletePattern]
    (at [keys] or at [del]) or [flushAll] is swallowed: the operation returns
    normally and nothing has changed. *)
Theorem backend_errors_are_swallowed s key (value : V) ttl pattern r :
  cache_set key value ttl ERR s = (inr tt, s)
  ∧ cache_delete key ERR s = (inr tt, s)
  ∧ deletePattern pattern ERR r s = (inr tt, s)
  ∧ deletePattern pattern OK ERR s = (inr tt, s)
  ∧ flushAll ERR s = (inr tt, s).
Proof.
  repeat split; unfold_cmd; cbn; destruct (unavailable _); try done.
  - destruct (JSON_stringify value); cbn; [|done]. by destruct (_ <? _)%N.
  - by destruct (length _).
Qed.

(** The connection handlers and the retry strategy change the wrapper
    only. *)
Definition connection (e : event V) : Prop :=
  e = Connected ∨ e = Disconnected ∨ e = GaveUp.

Lemma connection_run s (es : list (event V)) :
  Forall connection es → ∃ rc, run s es = with_redisClient rc s.
Proof.
  revert s. induction es as [|e es IH]; intros s Hes.
  - exists (redisClient s). by destruct s.
  - apply Forall_cons in Hes as [He Hes]. rewrite run_cons.
    destruct (IH (step s e) Hes) as [rc ->]. exists rc.
    by destruct He as [->|[->| ->]].
Qed.

(** X7. Storing the fetched value can never fail the request, and it is
    decided when the fetch settles. Whatever [this.set] does at the end of a
    shared fetch and whatever the connection does meanwhile, every caller
    that follows the job receives the fetched data, the registry entry of
    the key is removed and no other key of the backend is touched. When, at
    the fetch's settlement, the backend is unavailable, the value does not
    serialize or its text is over the limit, the callers are served and the
    entry is removed there and then, and nothing is written. Otherwise the
    callers wait for the backend's reply to the write: a rejection leaves
    the backend as it was, an acknowledgement has the value stored, also
    when the connection was lost in between. *)
Theorem store_outcome_never_fails_request s j f key ttl (data : V) es r c :
  jobs s !! j = Some (Job f (Fetching (Some (key, ttl)))) →
  calls s !! c = Some (Follows j) →
  Forall connection es →
  let s1 := step s (FetchSettled j (Fulfilled data)) in
  let s2 := step (run s1 es) (SetFinished j r) in
  (received s2 c = Some (Fulfilled data)
   ∧ pendingRequests s2 !! key = None
   ∧ (∀ key', key' ≠ key → db s2 !! key' = db s !! key'))
  ∧ (unavailable (redisClient s) = true
     ∨ JSON_stringify data = None
     ∨ (∃ text, JSON_stringify data = Some text
                ∧ (MAX_OBJECT_SIZE < N.of_nat (String.length text))%N) →
     received s1 c = Some (Fulfilled data)
     ∧ pendingRequests s1 !! key = None
     ∧ db s2 = db s)
  ∧ (∀ text,
       unavailable (redisClient s) = false →
       JSON_stringify data = Some text →
       (N.of_nat (String.length text) ≤ MAX_OBJECT_SIZE)%N →
       received s1 c = None
       ∧ pendingRequests s1 !! key = pendingRequests s !! key
       ∧ (r = ERR → db s2 = db s)
       ∧ (r = OK → db s2 !! key = Some (text, (now s + ttl)%N))).
Proof.
  intros Hj Hc Hes. cbn zeta.
  destruct (set_issues s data) as [text|] eqn:Hissued.
  - erewrite fetch_stores by done.
    match goal with |- context [run ?s1 es] =>
      destruct (connection_run s1 es Hes) as [rc ->] end.
    erewrite set_finished by (cbn; by rewrite list_lookup_alter_eq, Hj).
    apply set_issues_Some in Hissued as (Hup & Hser & Hfit).
    split; [|split].
    + cbn. split; [|split; [by rewrite lookup_delete_eq|]].
      * eapply received_follows; cbn; [done|].
        by rewrite !list_lookup_alter_eq, Hj.
      * intros key' Hne. destruct r; cbn; [|done].
        unfold redis_setex. by rewrite lookup_insert_ne.
    + intros [Hdown|[Hnone|(text' & Hser' & Hbig)]]; [congruence..|].
      assert (text' = text) as -> by congruence. lia.
    + intros text' _ Hser' _. assert (text' = text) as -> by congruence.
      split; [|split; [done|split]].
      * unfold received. cbn. by rewrite Hc, list_lookup_alter_eq, Hj.
      * by intros ->.
      * intros ->. cbn. unfold redis_setex. by rewrite lookup_insert_eq.
  - erewrite fetch_skips by done.
    match goal with |- context [run ?s1 es] =>
      destruct (connection_run s1 es Hes) as [rc ->] end.
    assert (Hrec : ∀ s' : CacheService V,
      calls s' = calls s →
      jobs s' = alter (λ jb, Job (invoked jb) (Settled (Fulfilled data))) j (jobs s) →
      received s' c = Some (Fulfilled data)).
    { intros s' Hcalls Hjobs. eapply received_follows; [by rewrite Hcalls|].
      by rewrite Hjobs, list_lookup_alter_eq, Hj. }
    cbn [step]. cbn [jobs with_redisClient with_jobs with_pendingRequests].
    rewrite list_lookup_alter_eq, Hj. cbn [fmap option_fmap option_map invoked].
    split; [|split].
    + split; [by apply Hrec|]. split; [cbn; by rewrite lookup_delete_eq|done].
    + intros _. split; [by apply Hrec|]. split; [cbn; by rewrite lookup_delete_eq|done].
    + intros text Hup Hser Hfit.
      by rewrite (set_issues_storable s data text) in Hissued.
Qed.

(** X8. A failed fetch is not remembered. After the fetch of a [get] on an
    absent key was rejected, the caller has the rejection, the backend and
    the registry are as before, and the next [get] on the key invokes its
    own fetcher. *)
Theorem failed_fetch_is_not_remembered s key f f2 ttl ttl2 error :
  unavailable (redisClient s) = false →
  cached s key = None →
  pendingRequests s !! key = None →
  let c := length (calls s) in
  let j := length (jobs s) in
  let s1 := run s [Get key f ttl; ReadReplied c OK; FetchSettled j (Rejected error)] in
  let s2 := run s1 [Get key f2 ttl2; ReadReplied (S c) OK] in
  received s1 c = Some (Rejected error)
  ∧ db s1 = db s ∧ pendingRequests s1 = pendingRequests s
  ∧ jobs s2 = jobs s1 ++ [Job f2 (Fetching (Some (key, ttl2)))]
  ∧ invocations f2 s2 = S (invocations f2 s1).
Proof.
  intros Hup Hunc Hnone. cbn zeta.
  assert (Hmiss : truthy (cached s key) = None) by by rewrite Hunc.
  set (s1 := run s [Get key f ttl; ReadReplied (length (calls s)) OK;
                    FetchSettled (length (jobs s)) (Rejected error)]).
  assert (Hs1 : s1 = {| redisClient := redisClient s; now := now s; db := db s;
                        pendingRequests := pendingRequests s;
                        stats_hits := stats_hits s; stats_misses := stats_misses s + 1;
                        calls := calls s ++ [Follows (length (jobs s))];
                        jobs := jobs s ++ [Job f (Settled (Rejected error))] |}).
  { unfold s1.
    rewrite (run_app s [Get key f ttl; ReadReplied (length (calls s)) OK]
               [FetchSettled (length (jobs s)) (Rejected error)]).
    rewrite get_fetches by done. unfold run. cbn [foldl].
    erewrite fetch_rejected by (cbn; by apply list_lookup_middle).
    cbn. rewrite delete_insert_id by done.
    by rewrite alter_app_r_alt, Nat.sub_diag by lia. }
  clearbody s1.
  split; [rewrite Hs1; eapply received_follows; cbn; by apply list_lookup_middle|].
  split; [by rewrite Hs1|]. split; [by rewrite Hs1|].
  assert (Hlen : S (length (calls s)) = length (calls s1)).
  { rewrite Hs1. cbn. rewrite length_app. cbn. lia. }
  rewrite Hlen, get_fetches; try (by rewrite Hs1).
  split; [done|]. by eapply invocations_snoc.
Qed.

(** X9. A caller that finds a fetch in flight for its key is coalesced into
    it, whatever fetcher and time to live it passed: its own fetcher is not
    invoked, both callers receive the value of the first caller's fetcher,
    and the value is stored with the first caller's time to live. Both
    lookups count as misses. *)
Theorem joiner_is_coalesced s key f1 f2 ttl1 ttl2 (value : V) text :
  unavailable (redisClient s) = false →
  cached s key = None →
  pendingRequests s !! key = None →
  JSON_stringify value = Some text →
  (N.of_nat (String.length text) ≤ MAX_OBJECT_SIZE)%N →
  f2 ≠ f1 →
  let c := length (calls s) in
  let j := length (jobs s) in
  let s' := run s [Get key f1 ttl1; ReadReplied c OK;
                   Get key f2 ttl2; ReadReplied (S c) OK;
                   FetchSettled j (Fulfilled value); SetFinished j OK] in
  received s' c = Some (Fulfilled value)
  ∧ received s' (S c) = Some (Fulfilled value)
  ∧ invocations f2 s' = invocations f2 s
  ∧ jobs s' = jobs s ++ [Job f1 (Settled (Fulfilled value))]
  ∧ db s' !! key = Some (text, (now s + ttl1)%N)
  ∧ stats_misses s' = (stats_misses s + 2)%N ∧ stats_hits s' = stats_hits s.
Proof.
  intros Hup Hunc Hnone Hser Hfit Hne. cbn zeta.
  assert (Hmiss : truthy (cached s key) = None) by by rewrite Hunc.
  set (s' := run s _).
  assert (Hs' : s' = {| redisClient := redisClient s; now := now s;
                        db := <[key := (text, (now s + ttl1)%N)]> (db s);
                        pendingRequests := pendingRequests s;
                        stats_hits := stats_hits s;
                        stats_misses := stats_misses s + 1 + 1;
                        calls := calls s ++ [Follows (length (jobs s));
                                             Follows (length (jobs s))];
                        jobs := jobs s ++ [Job f1 (Settled (Fulfilled value))] |}).
  { unfold s'.
    rewrite (run_app s [Get key f1 ttl1; ReadReplied (length (calls s)) OK]
               [Get key f2 ttl2; ReadReplied (S (length (calls s))) OK;
                FetchSettled (length (jobs s)) (Fulfilled value);
                SetFinished (length (jobs s)) OK]).
    rewrite get_fetches by done. unfold run. cbn [foldl].
    rewrite get_begin_available by done.
    erewrite resume_miss_join;
      [|cbn; apply list_lookup_middle; rewrite length_app; cbn; lia
       |done|cbn; apply lookup_insert_eq].
    erewrite (fetch_stores _ _ _ _ _ _ text);
      [|cbn; by apply list_lookup_middle|by apply set_issues_storable].
    erewrite set_finished
      by (cbn; rewrite alter_app_r_alt, Nat.sub_diag by lia; by apply list_lookup_middle).
    cbn. unfold redis_setex.
    rewrite delete_insert_id by done.
    rewrite <- app_assoc. cbn.
    rewrite insert_app_r_alt by (rewrite ?length_app; cbn; lia).
    replace (S (length (calls s)) - length (calls s)) with 1 by lia. cbn.
    by rewrite !alter_app_r_alt, !Nat.sub_diag by (rewrite ?length_app; cbn; lia). }
  clearbody s'. subst s'.
  split; [eapply received_follows; cbn; [|by apply list_lookup_middle];
          by apply list_lookup_middle|].
  split.
  { eapply received_follows; cbn; [|by apply list_lookup_middle].
    rewrite lookup_app_r by lia. by replace (S (length (calls s)) - length (calls s)) with 1 by lia. }
  split.
  { unfold invocations. cbn. rewrite filter_app, length_app. cbn.
    rewrite decide_False by done. cbn. lia. }
  split; [done|]. split; [cbn; by rewrite lookup_insert_eq|].
  cbn. split; [lia|done].
Qed.

(** X10. The counters only grow, by at most one per event between them, and
    only an answered cache lookup moves them: any other event leaves both
    as they are. *)
Theorem counters_only_grow s (es : list (event V)) (e : event V) :
  (stats_hits s ≤ stats_hits (run s es))%N
  ∧ (stats_misses s ≤ stats_misses (run s es))%N
  ∧ (stats_hits (run s es) + stats_misses (run s es)
     ≤ stats_hits s + stats_misses s + N.of_nat (length es))%N
  ∧ (lookup_of s e = None →
     stats_hits (step s e) = stats_hits s ∧ stats_misses (step s e) = stats_misses s).
Proof.
  assert (Hstep : ∀ s (e : event V),
    (stats_hits s ≤ stats_hits (step s e))%N
    ∧ (stats_misses s ≤ stats_misses (step s e))%N
    ∧ (stats_hits (step s e) + stats_misses (step s e)
       ≤ stats_hits s + stats_misses s + 1)%N).
  { intros s0 e0. destruct (step_stats s0 e0) as [-> ->].
    destruct (lookup_of s0 e0) as [[]|];
      repeat case_bool_decide; simplify_eq; lia. }
  split; [|split; [|split]].
  - revert s. induction es as [|e0 es IH]; intros s; [reflexivity|].
    rewrite run_cons. etrans; [apply (Hstep s e0)|apply IH].
  - revert s. induction es as [|e0 es IH]; intros s; [reflexivity|].
    rewrite run_cons. etrans; [apply (Hstep s e0)|apply IH].
  - revert s. induction es as [|e0 es IH]; intros s; [cbn; lia|].
    rewrite run_cons. specialize (IH (step s e0)).
    destruct (Hstep s e0) as (_ & _ & H3). cbn [length]. lia.
  - intros Hnone. destruct (step_stats s e) as [-> ->]. rewrite Hnone.
    rewrite !bool_decide_eq_false_2 by done. split; lia.
Qed.

(** The jobs whose promise is a pending [requestPromise]. *)
Definition pending_jobs (js : list (job V)) : nat :=
  length (filter (λ jb, is_Some (registered_key jb)) js).

Definition pending_weight (jb : job V) : nat :=
  match registered_key jb with Some _ => 1 | None => 0 end.

Lemma pending_jobs_cons (js : list (job V)) jb :
  pending_jobs (jb :: js) = pending_weight jb + pending_jobs js.
Proof.
  unfold pending_jobs, pending_weight. rewrite filter_cons.
  destruct (decide _) as [[k Hk]|Hno]; [by rewrite Hk|].
  destruct (registered_key jb); [destruct Hno; by eexists|done].
Qed.

Lemma pending_jobs_snoc (js : list (job V)) jb :
  pending_jobs (js ++ [jb]) = pending_jobs js + pending_weight jb.
Proof.
  induction js as [|jb0 js IH].
  - cbn [app]. rewrite pending_jobs_cons. unfold pending_jobs. cbn. lia.
  - cbn [app]. rewrite !pending_jobs_cons, IH. lia.
Qed.

Lemma pending_jobs_alter (js : list (job V)) g i jb :
  js !! i = Some jb →
  pending_jobs (alter g i js) + pending_weight jb
  = pending_jobs js + pending_weight (g jb).
Proof.
  revert i. induction js as [|jb0 js IH]; intros [|i] Hi; try done.
  - injection Hi as ->. change (alter g 0 (jb :: js)) with (g jb :: js).
    rewrite !pending_jobs_cons. lia.
  - cbn in Hi. specialize (IH i Hi).
    change (alter g (S i) (jb0 :: js)) with (jb0 :: alter g i js).
    rewrite !pending_jobs_cons. lia.
Qed.

#[local] Arguments pending_jobs : simpl never.

(** The registry is as large as the number of pending shared fetches. *)
Definition counted (s : CacheService V) : Prop :=
  consistent (pendingRequests s) (jobs s)
  ∧ size (pendingRequests s) = pending_jobs (jobs s).

Lemma step_counted s (e : event V) : counted s → counted (step s e).
Proof.
  intros [Hc Hn]. split; [by apply step_consistent|].
  destruct e as [key f ttl|c r|j o|j r| | | | | | | | | |];
    try (by edestruct (mutators_touch_db_only s) as [d ->]); try done.
  - destruct (unavailable (redisClient s)) eqn:Hav.
    + rewrite get_begin_unavailable by done. cbn. rewrite pending_jobs_snoc. cbn. lia.
    + by rewrite get_begin_available.
  - destruct (calls s !! c) as [[key f ttl|v|j]|] eqn:Hcall;
      try (cbn; by rewrite Hcall).
    destruct r;
      [|erewrite resume_error by done; cbn; rewrite pending_jobs_snoc; cbn; lia].
    destruct (truthy (cached s key)) as [text|] eqn:Ht.
    + destruct (JSON_parse text) as [v|] eqn:Hp.
      * by erewrite resume_hit.
      * erewrite resume_undecodable by done. cbn. rewrite pending_jobs_snoc. cbn. lia.
    + destruct (pendingRequests s !! key) as [j|] eqn:Hreg.
      * by erewrite resume_miss_join.
      * erewrite resume_miss_fetch by done. cbn.
        rewrite pending_jobs_snoc, map_size_insert_None by done. cbn. lia.
  - destruct (jobs s !! j) as [[f [[[key ttl]|]|key ttl data text|o']]|] eqn:Hj;
      try (cbn; by rewrite Hj).
    + destruct o as [data|error].
      * destruct (set_issues s data) as [text|] eqn:Hissued.
        -- erewrite fetch_stores by done. cbn.
           pose proof (pending_jobs_alter (jobs s)
             (λ jb, Job (invoked jb) (Storing key ttl data text)) j _ Hj) as H.
           cbn in H. lia.
        -- erewrite fetch_skips by done. cbn.
           pose proof (pending_jobs_alter (jobs s)
             (λ jb, Job (invoked jb) (Settled (Fulfilled data))) j _ Hj) as H.
           cbn in H.
           assert (Hreg : pendingRequests s !! key = Some j) by (apply Hc; by eexists).
           rewrite map_size_delete_Some by by eexists. lia.
      * erewrite fetch_rejected by done. cbn.
        pose proof (pending_jobs_alter (jobs s)
          (λ jb, Job (invoked jb) (Settled (Rejected error))) j _ Hj) as H.
        cbn in H.
        assert (Hreg : pendingRequests s !! key = Some j) by (apply Hc; by eexists).
        rewrite map_size_delete_Some by by eexists. lia.
    + erewrite fetch_direct by done. cbn.
      pose proof (pending_jobs_alter (jobs s)
        (λ jb, Job (invoked jb) (Settled o)) j _ Hj) as H.
      cbn in H. lia.
  - destruct (jobs s !! j) as [[f [[[key ttl]|]|key ttl data text|o']]|] eqn:Hj;
      try (cbn; by rewrite Hj).
    erewrite set_finished by done. cbn.
    pose proof (pending_jobs_alter (jobs s)
      (λ jb, Job (invoked jb) (Settled (Fulfilled data))) j _ Hj) as H.
    cbn in H.
    assert (Hreg : pendingRequests s !! key = Some j) by (apply Hc; by eexists).
    rewrite map_size_delete_Some by by eexists. lia.
Qed.

(** X11. In every state a fresh process can reach, the [pendingRequests]
    figure of [getStats] is the number of shared fetches that have not
    settled yet: the jobs that are fetching for a registered key or storing
    what they fetched. *)
Theorem getStats_counts_pending (connected : bool) (es : list (event V)) :
  let s := run (start connected) es in
  ∃ report, (getStats s).1 = inr report
    ∧ pendingRequests_size report = pending_jobs (jobs s).
Proof.
  cbn zeta. eexists. split; [reflexivity|]. cbn.
  assert (Hgen : ∀ s, counted s → counted (run s es)).
  { induction es as [|e es' IH]; intros s Hs; [done|].
    rewrite run_cons. by apply IH, step_counted. }
  apply Hgen. split; [apply start_consistent|done].
Qed.

End more.

(** ** The connection wrapper: reconnection *)

Definition MAX_RETRIES : N := 3.

(** [retryStrategy(times)] of [initializeClient]: the delay before the next
    attempt, or [None] for [null] ("stop retrying"), after which the wrapper
    has dropped its client. *)
Definition retryStrategy (times : N) (r : RedisClient) : option N * RedisClient :=
  if (MAX_RETRIES <? times)%N
  then (None, {| client := false; isConnected := isConnected r |})
  else (Some (N.min (times * 50) 2000), r).

(** X12. The retry strategy waits [50 * times] milliseconds before attempt
    [times] for the first three attempts, so never more than 150 and never
    the cap of 2000, and keeps the client; from the fourth on it stops
    retrying and drops the client, which makes the cache unavailable
    whatever the connection flag says. *)
Theorem retry_schedule (times : N) (r : RedisClient) :
  ((times ≤ 3)%N →
   retryStrategy times r = (Some (50 * times)%N, r) ∧ (50 * times ≤ 150)%N)
  ∧ ((3 < times)%N →
     (retryStrategy times r).1 = None
     ∧ client (retryStrategy times r).2 = false
     ∧ isConnected (retryStrategy times r).2 = isConnected r
     ∧ unavailable (retryStrategy times r).2 = true).
Proof.
  unfold retryStrategy, MAX_RETRIES. split; intros H.
  - rewrite (proj2 (N.ltb_ge _ _)) by done. split; [|lia].
    f_equal. f_equal. lia.
  - rewrite (proj2 (N.ltb_lt _ _)) by done. cbn. unfold unavailable, getClient, isAvailable.
    cbn. by destruct (isConnected r).
Qed.

Section client.
Context {V : Type} `{!JSON V}.
Implicit Types (s : CacheService V) (key : string) (f : fetcher) (ttl : N).

(** Only the connection events change the wrapper. *)
Lemma step_redisClient s (e : event V) :
  match e with Connected | Disconnected | GaveUp => False | _ => True end →
  redisClient (step s e) = redisClient s.
Proof.
  destruct e as [key f ttl|c r|j o|j r| | | | | | | | | |]; try done; intros _;
    try (by edestruct (mutators_touch_db_only s) as [d ->]).
  - destruct (unavailable (redisClient s)) eqn:Hav.
    + by rewrite get_begin_unavailable.
    + by rewrite get_begin_available.
  - destruct (calls s !! c) as [[key f ttl|v|j]|] eqn:Hcall;
      try (cbn; by rewrite Hcall).
    destruct r; [|by erewrite resume_error].
    destruct (truthy (cached s key)) as [text|] eqn:Ht.
    + destruct (JSON_parse text) as [v|] eqn:Hp.
      * by erewrite resume_hit.
      * by erewrite resume_undecodable.
    + destruct (pendingRequests s !! key) as [j|] eqn:Hreg.
      * by erewrite resume_miss_join.
      * by erewrite resume_miss_fetch.
  - destruct (jobs s !! j) as [[f [[[key ttl]|]|key ttl data text|o']]|] eqn:Hj;
      try (cbn; by rewrite Hj).
    destruct o as [data|error].
    + destruct (set_issues s data) as [text|] eqn:Hissued.
      * by erewrite fetch_stores.
      * by erewrite fetch_skips.
    + by erewrite fetch_rejected.
  - destruct (jobs s !! j) as [[f [[[key ttl]|]|key ttl data text|o']]|] eqn:Hj;
      try (cbn; by rewrite Hj).
    by erewrite set_finished.
Qed.

(** The job is suspended at the [client.setex] of its [set]: a write is on
    its way to the backend. *)
Definition storing (jb : job V) : bool :=
  match status jb with
  | Storing _ _ _ _ => true
  | _ => false
  end.

Lemma set_issues_unavailable s (value : V) :
  unavailable (redisClient s) = true → set_issues s value = None.
Proof. unfold set_issues. by intros ->. Qed.

Lemma step_given_up s (e : event V) :
  client (redisClient s) = false →
  Forall (λ jb, storing jb = false) (jobs s) →
  client (redisClient (step s e)) = false ∧ db (step s e) = db s
  ∧ Forall (λ jb, storing jb = false) (jobs (step s e)).
Proof.
  intros Hnull Hidle.
  assert (Hdown : unavailable (redisClient s) = true).
  { apply unavailable_iff. by left. }
  assert (Hsnoc : ∀ f reg, Forall (λ jb, storing jb = false)
                             (jobs s ++ [Job f (Fetching reg)])).
  { intros f reg. apply Forall_app. split; [done|]. by apply Forall_singleton. }
  assert (Hsettle : ∀ j o, Forall (λ jb, storing jb = false)
                             (alter (λ jb, Job (invoked jb) (Settled o)) j (jobs s))).
  { intros j o. by apply Forall_alter. }
  destruct e as [key f ttl|c r|j o|j r|key value ttl r|key r|pattern r1 r2|key r|r| | | | |];
    try done.
  - rewrite get_begin_unavailable by done. split_and!; first [done|apply Hsnoc].
  - rewrite step_redisClient by done. split; [done|].
    destruct (calls s !! c) as [[key f ttl|v|j]|] eqn:Hcall;
      try (cbn; by rewrite Hcall).
    destruct r;
      [|erewrite resume_error by done; split_and!; first [done|apply Hsnoc]].
    destruct (truthy (cached s key)) as [text|] eqn:Ht.
    + destruct (JSON_parse text) as [v|] eqn:Hp.
      * by erewrite resume_hit.
      * erewrite resume_undecodable by done. split_and!; first [done|apply Hsnoc].
    + destruct (pendingRequests s !! key) as [j|] eqn:Hreg.
      * by erewrite resume_miss_join.
      * erewrite resume_miss_fetch by done. split_and!; first [done|apply Hsnoc].
  - rewrite step_redisClient by done. split; [done|].
    destruct (jobs s !! j) as [[f [[[key ttl]|]|key ttl data text|o']]|] eqn:Hj;
      try (cbn; by rewrite Hj).
    + destruct o as [data|error].
      * erewrite fetch_skips; [|done|by apply set_issues_unavailable].
        split_and!; first [done|apply Hsettle].
      * erewrite fetch_rejected by done. split_and!; first [done|apply Hsettle].
    + erewrite fetch_direct by done. split_and!; first [done|apply Hsettle].
  - rewrite step_redisClient by done. split; [done|].
    destruct (jobs s !! j) as [[f [[[key ttl]|]|key ttl data text|o']]|] eqn:Hj;
      try (cbn; by rewrite Hj).
    by pose proof (Forall_lookup_1 _ _ _ _ Hidle Hj).
  - cbn. unfold_cmd. cbn. by rewrite Hdown.
  - cbn. unfold_cmd. cbn. by rewrite Hdown.
  - cbn. unfold_cmd. cbn. by rewrite Hdown.
  - cbn. unfold_cmd. cbn. by rewrite Hdown.
  - cbn. unfold_cmd. cbn. by rewrite Hdown.
Qed.

(** X13. Giving up is for good. Once the wrapper has dropped its client, no
    later event, a new connection included, makes the cache available
    again: when no write is on its way to the backend at that moment, the
    service never writes to or deletes from the backend any more, and every
    [get] goes straight to its fetcher, uncounted. *)
Theorem giving_up_is_permanent s (es : list (event V)) key f ttl :
  client (redisClient s) = false →
  Forall (λ jb, storing jb = false) (jobs s) →
  let s1 := run s es in
  let s2 := step s1 (Get key f ttl) in
  unavailable (redisClient s1) = true
  ∧ db s1 = db s
  ∧ jobs s2 = jobs s1 ++ [Job f (Fetching None)]
  ∧ stats_hits s2 = stats_hits s1 ∧ stats_misses s2 = stats_misses s1
  ∧ pendingRequests s2 = pendingRequests s1.
Proof.
  intros Hnull Hidle. cbn zeta.
  assert (Hgen : client (redisClient (run s es)) = false ∧ db (run s es) = db s).
  { revert s Hnull Hidle. induction es as [|e es IH]; intros s Hnull Hidle; [done|].
    rewrite run_cons. destruct (step_given_up s e Hnull Hidle) as (H1 & H2 & H3).
    destruct (IH _ H1 H3) as [H4 H5]. split; [done|congruence]. }
  destruct Hgen as [Hc Hd].
  assert (Hdown : unavailable (redisClient (run s es)) = true).
  { apply unavailable_iff. by left. }
  split; [done|]. split; [done|].
  by rewrite get_begin_unavailable.
Qed.

End client.

(** ** The callers: keys and invalidation patterns *)

(** The characters a glob pattern gives a meaning to. *)
Definition metachar (c : ascii) : bool :=
  is_char c "*" || is_char c "?" || is_char c "\" || is_char c "[".

(** A text that, inside a pattern, stands for itself. *)
Fixpoint literal (p : string) : bool :=
  match p with
  | EmptyString => true
  | String c p' => negb (metachar c) && literal p'
  end.

(** The keys of [routes.ts], as its template literals build them. *)
Definition event_key (id : string) : string := "event:" ++ id.
Definition events_list_admin_key (id : string) : string := "events:list:admin:" ++ id.
Definition leaderboard_event_key (id : string) : string := "leaderboard:event:" ++ id.
Definition leaderboard_round_key (id : string) : string := "leaderboard:round:" ++ id.
Definition rounds_key (id : string) : string := "rounds:" ++ id.
Definition questions_key (id : string) : string := "questions:" ++ id.
Definition rounds_pattern (id : string) : string := "rounds:" ++ id ++ "*".

Section callers.
Context {V : Type} `{!JSON V}.
Implicit Types (s : CacheService V) (key : string).

(** What the handler that deletes an event does to the cache
    ([app.delete("/api/events/:id")]), every command being acknowledged. *)
Definition invalidate_deleted_event (id : string) : list (event V) :=
  [DeleteCalled (event_key id) OK;
   DeletePatternCalled "events:list*" OK OK;
   DeletePatternCalled (rounds_pattern id) OK OK;
   DeletePatternCalled "leaderboard:*" OK OK].

Lemma append_inj_l (p a b : string) : p +:+ a = p +:+ b → a = b.
Proof.
  induction p as [|c p IH]; [done|]. intros H.
  change (String c (p +:+ a) = String c (p +:+ b)) in H. injection H as H. by apply IH.
Qed.

Lemma star_matches_all k : tokens_match [GStar] k = true.
Proof. induction k as [|c k IH]; [done|]. cbn in *. by rewrite IH, orb_true_r. Qed.

Lemma glob_prefix p k :
  literal p = true → glob_match (p ++ "*") k = String.prefix p k.
Proof.
  unfold glob_match. revert k. induction p as [|c p IH]; intros k Hlit.
  - transitivity true; [apply star_matches_all|by destruct k].
  - cbn in Hlit. apply andb_true_iff in Hlit as [Hc Hlit].
    unfold metachar in Hc. apply negb_true_iff in Hc.
    repeat (apply orb_false_elim in Hc as [Hc ?]).
    change (String c p +:+ "*") with (String c (p +:+ "*")).
    cbn [tokenize]. rewrite Hc, H1, H0, H.
    destruct k as [|d k]; [done|].
    cbn [tokens_match String.prefix token_accepts]. unfold is_char at 1.
    destruct (Ascii.ascii_dec c d) as [->|Hne].
    + rewrite bool_decide_eq_true_2 by done. by rewrite IH.
    + by rewrite bool_decide_eq_false_2 by congruence.
Qed.

Lemma cached_after_prefix_pattern s p k :
  unavailable (redisClient s) = false →
  literal p = true →
  cached (step s (DeletePatternCalled (p ++ "*") OK OK)) k
  = if String.prefix p k then None else cached s k.
Proof.
  intros Hup Hlit. rewrite cached_after_deletePattern by done.
  by rewrite glob_prefix.
Qed.

(** X14. [deletePattern(p + "*")], for a prefix [p] without glob
    characters and with the backend available, removes exactly the keys that
    start with [p]: those are absent afterwards and every other key answers
    as before. *)
Theorem deletePattern_prefix s p k :
  unavailable (redisClient s) = false →
  literal p = true →
  cached (step s (DeletePatternCalled (p ++ "*") OK OK)) k
  = if String.prefix p k then None else cached s k.
Proof.
  intros Hup Hlit. rewrite cached_after_deletePattern by done.
  by rewrite glob_prefix.
Qed.

Lemma cached_after_delete s key k :
  unavailable (redisClient s) = false →
  cached (step s (DeleteCalled key OK)) k
  = if decide (k = key) then None else cached s k.
Proof.
  intros Hup. cbn. unfold_cmd. cbn. rewrite Hup. cbn.
  unfold cached, redis_get. cbn. destruct (decide (k = key)) as [->|Hne].
  - by rewrite lookup_delete_eq.
  - by rewrite lookup_delete_ne.
Qed.

Lemma cached_after_invalidate_deleted_event s id k :
  unavailable (redisClient s) = false →
  literal id = true →
  cached (run s (invalidate_deleted_event id)) k
  = if String.prefix "leaderboard:" k then None
    else if String.prefix (rounds_key id) k then None
    else if String.prefix "events:list" k then None
    else if decide (k = event_key id) then None
    else cached s k.
Proof.
  intros Hup Hlit. unfold invalidate_deleted_event, run. cbn [foldl].
  set (s1 := step s (DeleteCalled (event_key id) OK)).
  set (s2 := step s1 (DeletePatternCalled "events:list*" OK OK)).
  set (s3 := step s2 (DeletePatternCalled (rounds_pattern id) OK OK)).
  assert (H1 : unavailable (redisClient s1) = false).
  { unfold s1. by rewrite step_redisClient. }
  assert (H2 : unavailable (redisClient s2) = false).
  { unfold s2. by rewrite step_redisClient. }
  assert (H3 : unavailable (redisClient s3) = false).
  { unfold s3. by rewrite step_redisClient. }
  rewrite (cached_after_prefix_pattern s3 "leaderboard:") by done.
  destruct (String.prefix "leaderboard:" k); [done|].
  unfold s3. change (rounds_pattern id) with (rounds_key id +:+ "*").
  rewrite (cached_after_prefix_pattern s2 (rounds_key id)) by done.
  destruct (String.prefix (rounds_key id) k); [done|].
  unfold s2. rewrite (cached_after_prefix_pattern s1 "events:list") by done.
  destruct (String.prefix "events:list" k); [done|].
  unfold s1. by rewrite cached_after_delete.
Qed.

(** X15. The cache after the handler that deletes event [id] (an id without
    glob characters, the backend available): the event's own entry, every
    cached event list, every cached leaderboard and the rounds of [id] are
    gone. The rounds pattern is a prefix pattern, so the rounds of every
    event whose id starts with [id] go with them and no others. Entries of
    the other events and every cached question set stay as they were. *)
Theorem event_deletion_invalidates s id :
  unavailable (redisClient s) = false →
  literal id = true →
  let s' := run s (invalidate_deleted_event id) in
  (cached s' (event_key id) = None
   ∧ cached s' "events:list:all" = None
   ∧ cached s' "events:list:active" = None
   ∧ (∀ admin, cached s' (events_list_admin_key admin) = None)
   ∧ (∀ id', cached s' (leaderboard_event_key id') = None)
   ∧ (∀ id', cached s' (leaderboard_round_key id') = None))
  ∧ (∀ id', cached s' (rounds_key id')
            = if String.prefix id id' then None else cached s (rounds_key id'))
  ∧ (∀ id', id' ≠ id → cached s' (event_key id') = cached s (event_key id'))
  ∧ (∀ round, cached s' (questions_key round) = cached s (questions_key round)).
Proof.
  intros Hup Hlit. cbn zeta.
  split; [|split; [|split]].
  - repeat split; intros; rewrite cached_after_invalidate_deleted_event by done; cbn.
    + by rewrite decide_True.
    + done.
    + done.
    + done.
    + done.
    + done.
  - intros id'. by rewrite cached_after_invalidate_deleted_event.
  - intros id' Hne. rewrite cached_after_invalidate_deleted_event by done. cbn.
    rewrite decide_False; [done|]. unfold event_key. by intros ?%append_inj_l.
  - intros round. by rewrite cached_after_invalidate_deleted_event.
Qed.

End callers.

(** ** Cache warming *)

Section warming.
Context {V : Type} `{!JSON V}.
Implicit Types (s : CacheService V) (key : string).

(** A JavaScript array of values, as a value. *)
Variable array : list V → V.

Notation "'let*' x := m 'in' k" := (bind m (λ x, k))
  (at level 10, x name, m at level 100, k at level 200).
Notation "m ;;; k" := (bind m (λ _, k))
  (at level 100, k at level 200, right associativity).

(** [await storage.f()]: the value, or the rejection thrown. *)
Definition awaited {A} (outcome : exn + A) : cmd V A :=
  match outcome with
  | inr a => ret a
  | inl error => throw error
  end.

(** [for (const event of recentEvents) await this.set(`event:${event.id}`,
    event, 1800)]; an event is its id and the object itself; [replies] tells
    how the backend answers the write under each key. *)
Fixpoint warm_events (replies : string → reply) (events : list (string * V)) : cmd V unit :=
  match events with
  | [] => ret tt
  | (id, event) :: rest =>
      cache_set (event_key id) event 1800 (replies (event_key id)) ;;;
      warm_events replies rest
  end.

(** [warmCache()] (lines 158-185), given what the three storage reads settle
    to. The writes are taken one after the other with nothing in between. *)
Definition warmCache (getEvents : exn + list (string * V))
    (getRegistrations getUniqueColleges : exn + V)
    (replies : string → reply) : cmd V unit :=
  try_catch
    (let* events := awaited getEvents in
     let recentEvents := take 50 events in
     cache_set "events:list" (array recentEvents.*2) 3600 (replies "events:list") ;;;
     warm_events replies recentEvents ;;;
     let* registrations := awaited getRegistrations in
     cache_set "registrations:all" registrations 300 (replies "registrations:all") ;;;
     let* colleges := awaited getUniqueColleges in
     cache_set "registrations:colleges" colleges 600 (replies "registrations:colleges"))
    (λ _, ret tt).


Lemma cache_set_steps key (value : V) ttl r s :
  cache_set key value ttl r s = (inr tt, step s (SetCalled key value ttl r)).
Proof. cbn [step]. unfold exec. by rewrite cache_set_effect. Qed.

Lemma set_frame s key (value : V) ttl r :
  ∃ d, step s (SetCalled key value ttl r) = with_db d s
       ∧ (∀ k, k ≠ key → d !! k = db s !! k)
       ∧ (unavailable (redisClient s) = true → d = db s).
Proof.
  exists (set_effect s key value ttl r). cbn [step]. unfold exec. rewrite cache_set_effect.
  split; [done|]. unfold set_effect. split.
  - intros k Hne. destruct (unavailable _); [done|].
    destruct (JSON_stringify value); [|done]. destruct r; [|done].
    destruct (_ <? _)%N; [done|]. unfold redis_setex. by rewrite lookup_insert_ne.
  - by intros ->.
Qed.

Lemma with_db_with_db (d d' : gmap string (string * N)) s :
  with_db d (with_db d' s) = with_db d s.
Proof. done. Qed.

Lemma warm_events_frame replies (events : list (string * V)) s :
  ∃ d, warm_events replies events s = (inr tt, with_db d s)
       ∧ (∀ k, (∀ id, id ∈ events.*1 → k ≠ event_key id) → d !! k = db s !! k)
       ∧ (unavailable (redisClient s) = true → d = db s).
Proof.
  revert s. induction events as [|[id event] rest IH]; intros s.
  - exists (db s). by rewrite with_db_same.
  - cbn [warm_events]. unfold bind. rewrite cache_set_steps.
    destruct (set_frame s (event_key id) event 1800 (replies (event_key id)))
      as (d1 & -> & Hk1 & Hdown1).
    destruct (IH (with_db d1 s)) as (d2 & -> & Hk2 & Hdown2).
    exists d2. split; [done|]. split.
    + intros k Hk. rewrite Hk2.
      * apply Hk1, Hk. cbn. left.
      * intros id' Hin. apply Hk. cbn. by right.
    + intros Hdown. rewrite Hdown2 by done. by apply Hdown1.
Qed.

(** X16. Warming never throws, whatever the storage reads and the backend
    do, and changes nothing but the backend. It writes under no key other
    than [events:list], [registrations:all], [registrations:colleges] and
    [event:<id>] for the first fifty events; it writes nothing when the
    backend is unavailable or when the read of the events fails. *)
Theorem warmCache_frame getEvents getRegistrations getUniqueColleges replies s :
  ∃ d,
    warmCache getEvents getRegistrations getUniqueColleges replies s
    = (inr tt, with_db d s)
    ∧ (∀ k, k ≠ "events:list" → k ≠ "registrations:all" →
            k ≠ "registrations:colleges" →
            (∀ events id, getEvents = inr events → id ∈ (take 50 events).*1 →
                          k ≠ event_key id) →
            d !! k = db s !! k)
    ∧ (unavailable (redisClient s) = true → d = db s)
    ∧ (∀ error, getEvents = inl error → d = db s).
Proof.
  unfold warmCache, try_catch, bind, awaited, ret, throw.
  destruct getEvents as [error|events]; cbv beta iota.
  { exists (db s). by rewrite with_db_same. }
  rewrite cache_set_steps.
  destruct (set_frame s "events:list" (array (take 50 events).*2) 3600
              (replies "events:list")) as (d1 & -> & Hk1 & Hdown1).
  destruct (warm_events_frame replies (take 50 events) (with_db d1 s))
    as (d2 & -> & Hk2 & Hdown2).
  rewrite with_db_with_db. cbn [db with_db redisClient] in Hk2, Hdown2.
  destruct getRegistrations as [error|registrations]; cbv beta iota.
  { exists d2. split; [done|]. split; [|split; [|done]].
    - intros k H1 _ _ H4. rewrite Hk2 by eauto. by apply Hk1.
    - intros Hdown. rewrite Hdown2 by done. by apply Hdown1. }
  rewrite cache_set_steps.
  destruct (set_frame (with_db d2 s) "registrations:all" registrations 300
              (replies "registrations:all")) as (d3 & -> & Hk3 & Hdown3).
  rewrite with_db_with_db. cbn [db with_db redisClient] in Hk3, Hdown3.
  destruct getUniqueColleges as [error|colleges]; cbv beta iota.
  { exists d3. split; [done|]. split; [|split; [|done]].
    - intros k H1 H2 _ H4. rewrite Hk3, Hk2 by eauto. by apply Hk1.
    - intros Hdown. rewrite Hdown3, Hdown2 by done. by apply Hdown1. }
  rewrite cache_set_steps.
  destruct (set_frame (with_db d3 s) "registrations:colleges" colleges 600
              (replies "registrations:colleges")) as (d4 & -> & Hk4 & Hdown4).
  rewrite with_db_with_db. cbn [db with_db redisClient] in Hk4, Hdown4.
  exists d4. split; [done|]. split; [|split; [|done]].
  - intros k H1 H2 H3 H4. rewrite Hk4, Hk3, Hk2 by eauto. by apply Hk1.
  - intros Hdown. rewrite Hdown4, Hdown3, Hdown2 by done. by apply Hdown1.
Qed.



End warming.

(** ** These properties on concrete runs *)

Section more_examples.
Local Open Scope N_scope.

Ltac evaluated := vm_compute; first [reflexivity | discriminate | done].

Lemma delete_then_get_witness :
  let s := three_keys in
  let s1 := step s (DeleteCalled "a:1" OK) in
  let s2 := run s1 [Get "a:1" "fetch" 60; ReadReplied (length (calls s1)) OK] in
  step s (InvalidateCalled "a:1" OK) = s1
  ∧ cached s1 "a:1" = None
  ∧ (∀ key', key' ≠ "a:1" → cached s1 key' = cached s key')
  ∧ jobs s2 = jobs s1 ++ [Job "fetch" (Fetching (Some ("a:1", 60)))]
  ∧ invocations "fetch" s2 = S (invocations "fetch" s1).
Proof. apply (delete_then_get three_keys "a:1" "fetch" 60); evaluated. Defined.

Lemma flushAll_then_get_witness :
  let s := three_keys in
  let s1 := step s (FlushAllCalled OK) in
  let s2 := run s1 [Get "b:1" "fetch" 60; ReadReplied (length (calls s1)) OK] in
  (∀ key', cached s1 key' = None)
  ∧ (stats_hits s1 = stats_hits s ∧ stats_misses s1 = stats_misses s
     ∧ pendingRequests s1 = pendingRequests s ∧ jobs s1 = jobs s)
  ∧ jobs s2 = jobs s1 ++ [Job "fetch" (Fetching (Some ("b:1", 60)))]
  ∧ invocations "fetch" s2 = S (invocations "fetch" s1).
Proof. apply (flushAll_then_get three_keys "b:1" "fetch" 60); evaluated. Defined.

Lemma set_then_get_witness :
  let s := three_keys in
  let c := length (calls s) in
  let s1 := run s [SetCalled "a:1" (JString "uno") 30 OK; Tick 29] in
  let s2 := run s1 [Get "a:1" "fetch" 60; ReadReplied c OK] in
  received s2 c = Some (Fulfilled (JString "uno"))
  ∧ jobs s2 = jobs s
  ∧ stats_hits s2 = stats_hits s + 1 ∧ stats_misses s2 = stats_misses s
  ∧ db s2 = db s1.
Proof.
  apply (set_then_get three_keys "a:1" (JString "uno") (String dquote (quote_body "uno"))
           30 "fetch" 60 29); evaluated.
Defined.

Lemma hit_does_not_prolong_witness :
  let s := start true in
  let c := length (calls s) in
  let s1 := run s [SetCalled "leaderboard:event:7" (JString "scores") 30 OK; Tick 20;
                   Get "leaderboard:event:7" "fetch" 30; ReadReplied c OK] in
  let s2 := run s1 [Tick 10; Get "leaderboard:event:7" "fetch2" 30;
                    ReadReplied (S c) OK] in
  received s1 c = Some (Fulfilled (JString "scores"))
  ∧ jobs s1 = jobs s
  ∧ cached (step s1 (Tick 10)) "leaderboard:event:7" = None
  ∧ jobs s2 = jobs s ++ [Job "fetch2" (Fetching (Some ("leaderboard:event:7", 30)))]
  ∧ invocations "fetch2" s2 = S (invocations "fetch2" s).
Proof.
  apply (hit_does_not_prolong (start true) "leaderboard:event:7" (JString "scores")
           (String dquote (quote_body "scores")) 30 "fetch" "fetch2" 30 30 20 10);
    evaluated.
Defined.

Lemma read_error_falls_back_witness :
  let s := step (start (V:=json) true) (Get "k" "fetch" 60) in
  let j := length (jobs s) in
  let s1 := step s (ReadReplied 0 ERR) in
  let s2 := step s1 (FetchSettled j (Fulfilled JNull)) in
  (jobs s1 = jobs s ++ [Job "fetch" (Fetching None)]
   ∧ stats_hits s1 = stats_hits s ∧ stats_misses s1 = stats_misses s
   ∧ pendingRequests s1 = pendingRequests s ∧ db s1 = db s)
  ∧ received s2 0%nat = Some (Fulfilled JNull)
  ∧ (stats_hits s2 = stats_hits s ∧ stats_misses s2 = stats_misses s
     ∧ pendingRequests s2 = pendingRequests s ∧ db s2 = db s).
Proof.
  apply (read_error_falls_back (step (start true) (Get "k" "fetch" 60)) 0%nat
           "k" "fetch" 60 (Fulfilled JNull)); evaluated.
Defined.

(** Two callers wait for one fetch. *)
Definition shared_fetch : CacheService json :=
  run (start true)
    [Get "k" "fetch" 60; Get "k" "fetch" 60; ReadReplied 0 OK; ReadReplied 1 OK].

Lemma store_outcome_never_fails_request_witness :
  let s := shared_fetch in
  let data := JString "v" in
  let s1 := step s (FetchSettled 0%nat (Fulfilled data)) in
  let s2 := step (run s1 [Disconnected; GaveUp]) (SetFinished 0%nat OK) in
  (received s2 1%nat = Some (Fulfilled data)
   ∧ pendingRequests s2 !! "k" = None
   ∧ (∀ key', key' ≠ "k" → db s2 !! key' = db s !! key'))
  ∧ (unavailable (redisClient s) = true
     ∨ JSON_stringify data = None
     ∨ (∃ text, JSON_stringify data = Some text
                ∧ MAX_OBJECT_SIZE < N.of_nat (String.length text)) →
     received s1 1%nat = Some (Fulfilled data)
     ∧ pendingRequests s1 !! "k" = None
     ∧ db s2 = db s)
  ∧ (∀ text,
       unavailable (redisClient s) = false →
       JSON_stringify data = Some text →
       N.of_nat (String.length text) ≤ MAX_OBJECT_SIZE →
       received s1 1%nat = None
       ∧ pendingRequests s1 !! "k" = pendingRequests s !! "k"
       ∧ (OK = ERR → db s2 = db s)
       ∧ (OK = OK → db s2 !! "k" = Some (text, now s + 60))).
Proof.
  apply (store_outcome_never_fails_request shared_fetch 0%nat "fetch" "k" 60
           (JString "v") [Disconnected; GaveUp] OK 1%nat); [evaluated|evaluated|].
  apply Forall_cons. split; [by right; left|].
  apply Forall_cons. split; [by right; right|].
  apply Forall_nil_2.
Defined.

Lemma failed_fetch_is_not_remembered_witness :
  let s := start (V:=json) true in
  let c := length (calls s) in
  let j := length (jobs s) in
  let s1 := run s [Get "k" "fetch" 60; ReadReplied c OK;
                   FetchSettled j (Rejected (OriginError "database down"))] in
  let s2 := run s1 [Get "k" "fetch2" 30; ReadReplied (S c) OK] in
  received s1 c = Some (Rejected (OriginError "database down"))
  ∧ db s1 = db s ∧ pendingRequests s1 = pendingRequests s
  ∧ jobs s2 = jobs s1 ++ [Job "fetch2" (Fetching (Some ("k", 30)))]
  ∧ invocations "fetch2" s2 = S (invocations "fetch2" s1).
Proof.
  apply (failed_fetch_is_not_remembered (start true) "k" "fetch" "fetch2" 60 30
           (OriginError "database down")); evaluated.
Defined.

Lemma joiner_is_coalesced_witness :
  let s := start true in
  let c := length (calls s) in
  let j := length (jobs s) in
  let s' := run s [Get "rounds:7" "byAdmin" 900; ReadReplied c OK;
                   Get "rounds:7" "byParticipant" 300; ReadReplied (S c) OK;
                   FetchSettled j (Fulfilled (JString "rounds")); SetFinished j OK] in
  received s' c = Some (Fulfilled (JString "rounds"))
  ∧ received s' (S c) = Some (Fulfilled (JString "rounds"))
  ∧ invocations "byParticipant" s' = invocations "byParticipant" s
  ∧ jobs s' = jobs s ++ [Job "byAdmin" (Settled (Fulfilled (JString "rounds")))]
  ∧ db s' !! "rounds:7" = Some (String dquote (quote_body "rounds"), now s + 900)
  ∧ stats_misses s' = stats_misses s + 2 ∧ stats_hits s' = stats_hits s.
Proof.
  apply (joiner_is_coalesced (start true) "rounds:7" "byAdmin" "byParticipant" 900 300
           (JString "rounds") (String dquote (quote_body "rounds"))); evaluated.
Defined.

(** The client is dropped while a fetch for an absent key is pending. *)
Definition given_up : CacheService json :=
  run three_keys [Get "c:1" "fetch" 60; ReadReplied 0 OK; GaveUp].

Lemma giving_up_is_permanent_witness :
  let s := given_up in
  let s1 := run s [Connected; FetchSettled 0%nat (Fulfilled JNull); SetFinished 0%nat OK;
                   SetCalled "c:2" JNull 60 OK; FlushAllCalled OK] in
  let s2 := step s1 (Get "b:1" "fetch" 60) in
  unavailable (redisClient s1) = true
  ∧ db s1 = db s
  ∧ jobs s2 = jobs s1 ++ [Job "fetch" (Fetching None)]
  ∧ stats_hits s2 = stats_hits s1 ∧ stats_misses s2 = stats_misses s1
  ∧ pendingRequests s2 = pendingRequests s1.
Proof.
  apply (giving_up_is_permanent given_up
           [Connected; FetchSettled 0%nat (Fulfilled JNull); SetFinished 0%nat OK;
            SetCalled "c:2" JNull 60 OK; FlushAllCalled OK] "b:1" "fetch" 60).
  - evaluated.
  - apply Forall_cons. split; [reflexivity|]. apply Forall_nil_2.
Defined.

Lemma deletePattern_prefix_witness :
  cached (step three_keys (DeletePatternCalled "a:*" OK OK)) "a:2"
  = if String.prefix "a:" "a:2" then None else cached three_keys "a:2".
Proof. apply (deletePattern_prefix three_keys "a:" "a:2"); evaluated. Defined.

(** Cached rounds of the events 1, 10 and 2, and the questions of a round. *)
Definition rounds_cached : CacheService json :=
  run (start true)
    [SetCalled "rounds:1" (JString "r1") 900 OK; SetCalled "rounds:10" (JString "r10") 900 OK;
     SetCalled "rounds:2" (JString "r2") 900 OK; SetCalled "questions:5" (JString "q5") 300 OK;
     SetCalled "events:list:all" (JString "all") 3600 OK].

Lemma event_deletion_invalidates_witness :
  let s' := run rounds_cached (invalidate_deleted_event "1") in
  cached s' "events:list:all" = None
  ∧ cached s' (rounds_key "1") = None
  ∧ cached s' (rounds_key "10") = None
  ∧ cached s' (rounds_key "2") = cached rounds_cached (rounds_key "2")
  ∧ cached s' (questions_key "5") = cached rounds_cached (questions_key "5")
  ∧ is_Some (cached s' (rounds_key "2")) ∧ is_Some (cached s' (questions_key "5")).
Proof.
  assert (Hup : unavailable (redisClient rounds_cached) = false) by evaluated.
  assert (Hlit : literal "1" = true) by evaluated.
  destruct (event_deletion_invalidates rounds_cached "1" Hup Hlit)
    as ((_ & Hall & _) & Hrounds & _ & Hquestions).
  split; [exact Hall|]. split; [exact (Hrounds "1")|]. split; [exact (Hrounds "10")|].
  split; [exact (Hrounds "2")|]. split; [exact (Hquestions "5")|].
  split.
  - rewrite (Hrounds "2"). vm_compute. by eexists.
  - rewrite (Hquestions "5"). vm_compute. by eexists.
Defined.



End more_examples.
